(** * Student Performance Analyzer: record store and reporting engine

    A shallow embedding of [student.py]: the [DatabaseManager] class (two
    SQLite tables and the statements run on them) and the reporting part of
    [StudentPerformanceAnalyzer] ([generate_analysis], [calculate_grade],
    [generate_visualization] and the [plot_*] aggregations), and the
    callbacks of its forms ([add_student], [add_marks], the two clear
    functions and [refresh_student_list]).

    Conventions of the embedding.
    - A table is the list of its rows in insertion (rowid) order; a Python
      tuple returned by [fetchall] is a record or a Rocq tuple.
    - TEXT values and Python [str]s are [string]s holding the UTF-8
      encoding. They are compared bytewise ([String.le]), which is SQLite's
      BINARY collation and, on UTF-8, Python's order on [str]; characters
      are counted and cut by [str_len] and [str_slice_to].
    - A Python [int] is a [Z]; an SQLite INTEGER holds the ones for which
      [sqlite_integer] is true.
    - REAL values and Python floats are exact rationals [Q]; module
      [Binary64] redoes the overall mean, minimum and maximum and the
      grades on IEEE binary64 numbers, where rounding matters.
    - [datetime.now().strftime("%Y-%m-%d")] is the parameter [today].
    - Every [DatabaseManager] method opens a connection, runs its statements,
      commits and closes: it is a function from the store to a result and
      the store afterwards. *)

From stdpp Require Import base relations list strings sorting.
From Stdlib Require Import ZArith Reals QArith Qround Qminmax Qreals Lqa.
From Stdlib Require Floats.

Local Close Scope R_scope.
Local Close Scope Q_scope.
Local Open Scope string_scope.
Local Open Scope list_scope.

(** ** ORDER BY and [sorted]: a stable insertion sort *)

Section order_by.
Context {A : Type} (R : relation A) `{!RelDecision R}.

Fixpoint insert_row (x : A) (l : list A) : list A :=
  match l with
  | [] => [x]
  | y :: l' => if decide (R x y) then x :: l else y :: insert_row x l'
  end.

Definition order_by (l : list A) : list A := foldr insert_row [] l.

End order_by.

(** ** The two tables

    Column names carry the alias the queries give their table ([s] for
    [students], [m] for [marks]). *)

Record Student := mkStudent {
  s_roll_no : string;       (* roll_no TEXT PRIMARY KEY *)
  s_name : string;          (* name TEXT NOT NULL *)
  s_age : Z;                (* age INTEGER *)
  s_class : string;         (* class TEXT *)
  s_created_date : string   (* created_date TEXT *)
}.

Record MarkEntry := mkMarkEntry {
  m_id : Z;                 (* id INTEGER PRIMARY KEY AUTOINCREMENT *)
  m_roll_no : string;       (* roll_no TEXT; the FOREIGN KEY clause is not
                               enforced: the connection never sets
                               PRAGMA foreign_keys *)
  m_subject : string;       (* subject TEXT *)
  m_marks : Q;              (* marks REAL *)
  m_max_marks : Q;          (* max_marks REAL DEFAULT 100 *)
  m_exam_date : string      (* exam_date TEXT *)
}.

(** The database file: both tables, and the largest [id] AUTOINCREMENT has
    handed out so far (table [sqlite_sequence]). *)
Record Store := mkStore {
  tbl_students : list Student;
  tbl_marks : list MarkEntry;
  seq_marks : Z
}.

(** [create_tables]: CREATE TABLE IF NOT EXISTS, twice. A database file
    that exists is left as it is; a missing one ([None]) is created with
    both tables empty. *)
Definition create_tables (file : option Store) : Store :=
  default {| tbl_students := []; tbl_marks := []; seq_marks := 0 |} file.

#[global] Instance Student_eq_dec : EqDecision Student.
Proof. solve_decision. Defined.

(** A row returned by [get_student_marks]: (subject, marks, exam_date). *)
Definition MarkRow : Type := string * Q * string.

(** A row returned by [get_all_marks]: (roll_no, name, subject, marks). *)
Definition JoinedRow : Type := string * string * string * Q.

(** ORDER BY roll_no *)
Definition by_roll_no : relation Student :=
  λ s1 s2, String.le (s_roll_no s1) (s_roll_no s2).

(** ORDER BY subject *)
Definition by_subject : relation MarkEntry :=
  λ m1 m2, String.le (m_subject m1) (m_subject m2).

(** ORDER BY s.roll_no, m.subject *)
Definition by_roll_no_subject : relation (Student * MarkEntry) :=
  λ p1 p2, String.le (s_roll_no p1.1) (s_roll_no p2.1) ∧
           (s_roll_no p1.1 = s_roll_no p2.1 →
            String.le (m_subject p1.2) (m_subject p2.2)).

#[global] Instance by_roll_no_dec : RelDecision by_roll_no.
Proof. intros s1 s2. unfold by_roll_no. apply _. Defined.

#[global] Instance by_subject_dec : RelDecision by_subject.
Proof. intros m1 m2. unfold by_subject. apply _. Defined.

#[global] Instance by_roll_no_subject_dec : RelDecision by_roll_no_subject.
Proof. intros p1 p2. unfold by_roll_no_subject. apply _. Defined.

(** ** DatabaseManager *)

(** The roll numbers in the [students] table. *)
Definition roll_nos (db : Store) : list string := s_roll_no <$> tbl_students db.

(** A Python [int] has no bounds; an SQLite INTEGER is a signed 64-bit
    number. sqlite3 binds an [int] parameter only when it fits. *)
Definition sqlite_integer (n : Z) : bool :=
  (- 2 ^ 63 <=? n)%Z && (n <=? 2 ^ 63 - 1)%Z.

(** How a call of a method ends: with a returned value, or with an
    exception that leaves the method. *)
Inductive Result (A : Type) : Type :=
  | Return (value : A)
  | Raise (exception : string).
Arguments Return {A} value.
Arguments Raise {A} exception.

#[global] Instance Result_eq_dec `{EqDecision A} : EqDecision (Result A).
Proof. solve_decision. Defined.

(** [add_student]. [cursor.execute] binds the parameters before it runs the
    statement: an [age] that does not fit an SQLite INTEGER raises
    OverflowError there, which the [except sqlite3.IntegrityError] clause
    does not catch, so it leaves the method and nothing is inserted.
    Otherwise the INSERT violates the PRIMARY KEY when [roll_no] is already
    in the table; sqlite3 then raises IntegrityError, nothing is committed
    and the method returns [False]. *)
Definition add_student (today : string)
    (roll_no name : string) (age : Z) (class_name : string)
    (db : Store) : Result bool * Store :=
  if negb (sqlite_integer age) then (Raise "OverflowError", db)
  else if decide (roll_no ∈ roll_nos db) then (Return false, db)
  else (Return true,
        {| tbl_students :=
             tbl_students db ++ [mkStudent roll_no name age class_name today];
           tbl_marks := tbl_marks db;
           seq_marks := seq_marks db |}).

(** [add_marks]: [exam_date=None] is replaced by today's date; the row gets
    the next [id] and the default [max_marks]. *)
Definition add_marks (today : string)
    (roll_no subject : string) (marks : Q) (exam_date : option string)
    (db : Store) : bool * Store :=
  let exam_date := default today exam_date in
  let id := (seq_marks db + 1)%Z in
  (true,
   {| tbl_students := tbl_students db;
      tbl_marks :=
        tbl_marks db ++ [mkMarkEntry id roll_no subject marks 100 exam_date];
      seq_marks := id |}).

(** [get_all_students]: SELECT * FROM students ORDER BY roll_no *)
Definition get_all_students (db : Store) : list Student :=
  order_by by_roll_no (tbl_students db).

(** [get_student_marks]: SELECT subject, marks, exam_date FROM marks
    WHERE roll_no = ? ORDER BY subject *)
Definition get_student_marks (roll_no : string) (db : Store) : list MarkRow :=
  (λ m, (m_subject m, m_marks m, m_exam_date m)) <$>
  order_by by_subject (filter (λ m, m_roll_no m = roll_no) (tbl_marks db)).

(** FROM students s JOIN marks m ON s.roll_no = m.roll_no *)
Definition students_join_marks (db : Store) : list (Student * MarkEntry) :=
  s ← tbl_students db;
  m ← filter (λ m, s_roll_no s = m_roll_no m) (tbl_marks db);
  [(s, m)].

(** [get_all_marks]: SELECT s.roll_no, s.name, m.subject, m.marks
    FROM students s JOIN marks m ON s.roll_no = m.roll_no
    ORDER BY s.roll_no, m.subject *)
Definition get_all_marks (db : Store) : list JoinedRow :=
  (λ p, (s_roll_no p.1, s_name p.1, m_subject p.2, m_marks p.2)) <$>
  order_by by_roll_no_subject (students_join_marks db).

(** [delete_student]: DELETE FROM marks WHERE roll_no = ?, then
    DELETE FROM students WHERE roll_no = ?; always returns [True]. *)
Definition delete_student (roll_no : string) (db : Store) : bool * Store :=
  let marks' := filter (λ m, m_roll_no m ≠ roll_no) (tbl_marks db) in
  let students' := filter (λ s, s_roll_no s ≠ roll_no) (tbl_students db) in
  (true,
   {| tbl_students := students'; tbl_marks := marks';
      seq_marks := seq_marks db |}).

(** What the schema guarantees of every database file: the primary keys
    are unique, and no [id] exceeds the AUTOINCREMENT counter. *)
Record store_ok (db : Store) : Prop := {
  ok_roll_no : NoDup (roll_nos db);
  ok_id : NoDup (m_id <$> tbl_marks db);
  ok_seq : Forall (λ m, (m_id m ≤ seq_marks db)%Z) (tbl_marks db)
}.

(** One call of a mutating method. *)
Inductive db_step (db : Store) : Store → Prop :=
  | step_add_student today roll_no name age class_name :
      db_step db (add_student today roll_no name age class_name db).2
  | step_add_marks today roll_no subject marks exam_date :
      db_step db (add_marks today roll_no subject marks exam_date db).2
  | step_delete_student roll_no :
      db_step db (delete_student roll_no db).2.

(** The stores the program can build from a fresh database file. *)
Definition reachable : Store → Prop := rtc db_step (create_tables None).

(** ** numpy reductions, in exact arithmetic

    The functions below are numpy's, applied to a one-dimensional array of
    floats; they follow numpy's definitions with the rounding left out. On an
    empty array numpy yields nan ([mean], [median], [percentile], [std]) or
    raises ValueError ([min], [max]); no call site passes one
    ([generate_analysis] returns before the overall statistics when
    [all_marks] is empty, and a group is created by its first mark), and the
    value chosen here for the empty list is 0. *)

#[global] Instance Qle_dec : RelDecision Qle.
Proof.
  intros x y. destruct (Qlt_le_dec y x) as [H|H].
  - right. by apply Qlt_not_le.
  - by left.
Defined.

Definition np_sum (a : list Q) : Q := foldl Qplus 0%Q a.

Definition np_size (a : list Q) : Q := inject_Z (Z.of_nat (length a)).

Definition np_mean (a : list Q) : Q := (np_sum a / np_size a)%Q.

Definition np_min (a : list Q) : Q :=
  match a with
  | [] => 0%Q
  | x :: a' => foldl Qmin x a'
  end.

Definition np_max (a : list Q) : Q :=
  match a with
  | [] => 0%Q
  | x :: a' => foldl Qmax x a'
  end.

(** [np.var] with [ddof=0]: the mean of the squared deviations. *)
Definition np_var (a : list Q) : Q :=
  let arrmean := np_mean a in
  np_mean ((λ x, (x - arrmean) * (x - arrmean))%Q <$> a).

(** [np.std]: the square root of [np.var], a real number. *)
Definition np_std (a : list Q) : R := sqrt (Q2R (np_var a)).

Definition np_sort (a : list Q) : list Q := order_by Qle a.

(** Python indexing [a[i]], a negative [i] counting from the end. *)
Definition getitem (a : list Q) (i : Z) : Q :=
  nth (Z.to_nat (if (i <? 0)%Z then Z.of_nat (length a) + i else i)) a 0%Q.

Definition np_median (a : list Q) : Q :=
  let arr := np_sort a in
  let n := Z.of_nat (length a) in
  if Z.even n then ((getitem arr (n / 2 - 1) + getitem arr (n / 2)) / 2)%Q
  else getitem arr (n / 2).

(** numpy's [_lerp]: from [a] upwards for a small [t], from [b] downwards
    for [t >= 0.5]. *)
Definition lerp (a b t : Q) : Q :=
  let diff_b_a := (b - a)%Q in
  if Qle_bool (1 # 2) t then (b - diff_b_a * (1 - t))%Q
  else (a + diff_b_a * t)%Q.

(** [np.percentile(a, q)] with the default method, 'linear': the virtual
    index [(n - 1) * q / 100] is split into its floor and the fraction
    [gamma]; an index at or past the last one is replaced by [-1] (the last
    element), a negative one by [0]. *)
Definition np_percentile (a : list Q) (q : Q) : Q :=
  let arr := np_sort a in
  let values_count := np_size a in
  let quantile := (q / 100)%Q in
  let virtual_index := ((values_count - 1) * quantile)%Q in
  let above_bounds := Qle_bool (values_count - 1) virtual_index in
  let below_bounds := negb (Qle_bool 0 virtual_index) in
  let previous_index :=
    if below_bounds then 0%Z else if above_bounds then (-1)%Z
    else Qfloor virtual_index in
  let next_index :=
    if below_bounds then 0%Z else if above_bounds then (-1)%Z
    else (Qfloor virtual_index + 1)%Z in
  let gamma := (virtual_index - inject_Z previous_index)%Q in
  lerp (getitem arr previous_index) (getitem arr next_index) gamma.

(** The percentile as the specification words it: the value at fractional
    rank [p/100 * (n-1)] of the sorted sequence, linearly interpolated
    between the two neighbouring sorted elements. *)
Definition spec_percentile (values : list Q) (p : Q) : Q :=
  let sorted := order_by Qle values in
  let n := inject_Z (Z.of_nat (length values)) in
  let rank := (p / 100 * (n - 1))%Q in
  let k := Z.to_nat (Qfloor rank) in
  let lower := nth k sorted 0%Q in
  let upper := nth (S k) sorted lower in
  (lower + (rank - inject_Z (Qfloor rank)) * (upper - lower))%Q.

(** ** Python dictionaries

    A [dict] keeps its keys in insertion order: an association list with
    distinct keys. *)

Definition dict (V : Type) : Type := list (string * V).

(** [k in d] *)
Definition dict_contains {V} (k : string) (d : dict V) : bool :=
  bool_decide (k ∈ d.*1).

(** [d[k] = v] for a key that is not in [d] yet *)
Definition dict_new {V} (k : string) (v : V) (d : dict V) : dict V :=
  d ++ [(k, v)].

(** [d[k] = f(d[k])] for a key of [d] *)
Fixpoint dict_modify {V} (k : string) (f : V → V) (d : dict V) : dict V :=
  match d with
  | [] => []
  | (k', v) :: d' =>
      if decide (k' = k) then (k', f v) :: d' else (k', v) :: dict_modify k f d'
  end.

Definition by_key {V} : relation (string * V) := λ kv1 kv2, String.le kv1.1 kv2.1.

#[global] Instance by_key_dec {V} : RelDecision (@by_key V).
Proof. intros kv1 kv2. unfold by_key. apply _. Defined.

(** [sorted(d.items())]: the keys are distinct, so the comparison of two
    items is decided by their keys. *)
Definition sorted_items {V} (d : dict V) : list (string * V) := order_by by_key d.

(** ** Reporting: [generate_analysis] *)

(** [calculate_grade] *)
Definition calculate_grade (avg : Q) : string :=
  if Qle_bool 90 avg then "A+"
  else if Qle_bool 80 avg then "A"
  else if Qle_bool 70 avg then "B"
  else if Qle_bool 60 avg then "C"
  else if Qle_bool 50 avg then "D"
  else "F".

(** [{'name': name, 'marks': [...], 'subjects': [...]}] *)
Record StudentInfo := mkInfo {
  info_name : string;
  info_marks : list Q;
  info_subjects : list string
}.

(** The first loop of [generate_analysis]: [data], keyed by roll number. *)
Definition student_data (all_marks : list JoinedRow) : dict StudentInfo :=
  foldl (λ data row,
    let '(roll_no, name, subject, marks) := row in
    let data :=
      if dict_contains roll_no data then data
      else dict_new roll_no (mkInfo name [] []) data in
    dict_modify roll_no
      (λ info, mkInfo (info_name info) (info_marks info ++ [marks])
                      (info_subjects info ++ [subject])) data)
    [] all_marks.

(** [subjects_data], keyed by subject. *)
Definition subjects_data (all_marks : list JoinedRow) : dict (list Q) :=
  foldl (λ data row,
    let '(roll_no, name, subject, marks) := row in
    let data :=
      if dict_contains subject data then data else dict_new subject [] data in
    dict_modify subject (λ marks_list, marks_list ++ [marks]) data)
    [] all_marks.

(** [all_marks_array]: [mark for _, _, _, mark in all_marks] *)
Definition all_marks_array (all_marks : list JoinedRow) : list Q := snd <$> all_marks.

(** The numbers [generate_analysis] formats into its report. The standard
    deviations it prints are the square roots of the variances kept here. *)
Record OverallStatistics := mkOverall {
  total_records : nat;
  total_students : nat;
  overall_mean : Q;
  overall_median : Q;
  overall_variance : Q;
  overall_minimum : Q;
  overall_maximum : Q;
  overall_percentile_25 : Q;
  overall_percentile_75 : Q
}.

Record StudentLine := mkStudentLine {
  line_roll_no : string;
  line_name : string;
  line_avg : Q;
  line_total : Q;
  line_grade : string
}.

Record SubjectLine := mkSubjectLine {
  line_subject : string;
  line_mean : Q;
  line_variance : Q;
  line_min : Q;
  line_max : Q
}.

Record Analysis := mkAnalysis {
  overall : OverallStatistics;
  student_wise : list StudentLine;
  subject_wise : list SubjectLine
}.

Definition overall_statistics (all_marks : list JoinedRow) : OverallStatistics :=
  let data := student_data all_marks in
  let all_marks_array := all_marks_array all_marks in
  {| total_records := length all_marks;
     total_students := length data;
     overall_mean := np_mean all_marks_array;
     overall_median := np_median all_marks_array;
     overall_variance := np_var all_marks_array;
     overall_minimum := np_min all_marks_array;
     overall_maximum := np_max all_marks_array;
     overall_percentile_25 := np_percentile all_marks_array 25;
     overall_percentile_75 := np_percentile all_marks_array 75 |}.

Definition student_wise_performance (all_marks : list JoinedRow) : list StudentLine :=
  (λ item : string * StudentInfo,
     let '(roll_no, info) := item in
     let avg := np_mean (info_marks info) in
     let total := np_sum (info_marks info) in
     let grade := calculate_grade avg in
     mkStudentLine roll_no (info_name info) avg total grade) <$>
  sorted_items (student_data all_marks).

Definition subject_wise_statistics (all_marks : list JoinedRow) : list SubjectLine :=
  (λ item : string * list Q,
     let '(subject, marks_list) := item in
     mkSubjectLine subject (np_mean marks_list) (np_var marks_list)
                   (np_min marks_list) (np_max marks_list)) <$>
  sorted_items (subjects_data all_marks).

Definition analysis (all_marks : list JoinedRow) : Analysis :=
  {| overall := overall_statistics all_marks;
     student_wise := student_wise_performance all_marks;
     subject_wise := subject_wise_statistics all_marks |}.

(** ** Reporting: the charts *)

(** [plot_grade_distribution]: the labels and sizes handed to [ax.pie]. *)
Definition marks_by_student (all_marks : list JoinedRow) : dict (list Q) :=
  foldl (λ data row,
    let '(roll_no, name, subject, marks) := row in
    let data :=
      if dict_contains roll_no data then data else dict_new roll_no [] data in
    dict_modify roll_no (λ marks_list, marks_list ++ [marks]) data)
    [] all_marks.

Definition grade_counts (all_marks : list JoinedRow) : dict nat :=
  let data := marks_by_student all_marks in
  let grades : dict nat :=
    [("A+", 0); ("A", 0); ("B", 0); ("C", 0); ("D", 0); ("F", 0)] in
  foldl (λ grades item,
    let '(roll_no, marks_list) := item in
    let avg := np_mean marks_list in
    let grade := calculate_grade avg in
    dict_modify grade S grades)
    grades data.

Definition plot_grade_distribution (all_marks : list JoinedRow)
    : list string * list nat :=
  let grades := grade_counts all_marks in
  let labels := fst <$> filter (λ kv, 0 < kv.2) grades in
  let sizes := filter (λ v, 0 < v) (snd <$> grades) in
  (labels, sizes).

(** A Python [str] is a sequence of Unicode characters. The model holds a
    [str] as its UTF-8 encoding, the form in which the database file keeps
    a TEXT value: every character is one byte outside 0x80..0xBF, followed
    by up to three bytes inside that range. *)
Definition continuation_byte (b : Ascii.ascii) : bool :=
  (128 <=? Ascii.N_of_ascii b)%N && (Ascii.N_of_ascii b <? 192)%N.

(** [len(s)]: the number of characters. *)
Fixpoint str_len (s : string) : nat :=
  match s with
  | EmptyString => 0
  | String b s' =>
      if continuation_byte b then str_len s' else S (str_len s')
  end.

(** [s[:n]]: the first [n] characters, each with all of its bytes. *)
Fixpoint str_slice_to (n : nat) (s : string) : string :=
  match s with
  | EmptyString => EmptyString
  | String b s' =>
      if continuation_byte b then String b (str_slice_to n s')
      else
        match n with
        | 0 => EmptyString
        | S n' => String b (str_slice_to n' s')
        end
  end.

(** [plot_student_performance]: the tick labels (roll number and the first
    ten characters of the name, [info['name'][:10]]) and the bar heights. *)
Definition plot_student_performance (all_marks : list JoinedRow)
    : list (string * string) * list Q :=
  let items := sorted_items (student_data all_marks) in
  ((λ item : string * StudentInfo,
      (item.1, str_slice_to 10 (info_name item.2))) <$> items,
   (λ item : string * StudentInfo, np_mean (info_marks item.2)) <$> items).

(** [plot_subject_average]: subjects in the order they were first met. *)
Definition plot_subject_average (all_marks : list JoinedRow)
    : list string * list Q :=
  let data := subjects_data all_marks in
  (fst <$> data, (λ item : string * list Q, np_mean item.2) <$> data).

(** What a figure shows. The heat map and the box plot hand the joined rows
    to pandas and seaborn, which aggregate and draw them. *)
Inductive Chart :=
  | StudentPerformanceBarChart (students : list (string * string)) (averages : list Q)
  | SubjectWiseAverage (subjects : list string) (averages : list Q)
  | GradeDistribution (labels : list string) (sizes : list nat)
  | PerformanceHeatmap (df : list JoinedRow)
  | BoxPlotBySubject (df : list JoinedRow)
  | EmptyFigure.

(** ** The application window *)

(** What the analysis text box holds. *)
Inductive TextContent :=
  | Blank
  | Text (message : string)
  | Report (output : Analysis).

(** A message box shown to the user: the [messagebox] function called, the
    title and the message. *)
Definition Dialog : Type := string * string * string.

Record App := mkApp {
  db : Store;
  chart_var : string;
  analysis_text : TextContent;
  viz_canvas_frame : list Chart;
  dialogs : list Dialog
}.

(** [generate_analysis]: the text box is cleared, then filled with the
    notice or with the report. *)
Definition generate_analysis (self : App) : App :=
  let all_marks := get_all_marks (db self) in
  let output :=
    if bool_decide (all_marks = []) then Text "No data available for analysis!"
    else Report (analysis all_marks) in
  {| db := db self; chart_var := chart_var self;
     analysis_text := output;
     viz_canvas_frame := viz_canvas_frame self;
     dialogs := dialogs self |}.

Definition make_chart (chart_type : string) (all_marks : list JoinedRow) : Chart :=
  if decide (chart_type = "Student Performance Bar Chart") then
    let '(students, averages) := plot_student_performance all_marks in
    StudentPerformanceBarChart students averages
  else if decide (chart_type = "Subject-wise Average") then
    let '(subjects, averages) := plot_subject_average all_marks in
    SubjectWiseAverage subjects averages
  else if decide (chart_type = "Grade Distribution") then
    let '(labels, sizes) := plot_grade_distribution all_marks in
    GradeDistribution labels sizes
  else if decide (chart_type = "Performance Heatmap") then PerformanceHeatmap all_marks
  else if decide (chart_type = "Box Plot by Subject") then BoxPlotBySubject all_marks
  else EmptyFigure.

(** [generate_visualization]: the previous canvas is destroyed; with no
    data a warning is shown and nothing is drawn. *)
Definition generate_visualization (self : App) : App :=
  let all_marks := get_all_marks (db self) in
  if bool_decide (all_marks = []) then
    {| db := db self; chart_var := chart_var self;
       analysis_text := analysis_text self;
       viz_canvas_frame := [];
       dialogs := dialogs self ++
         [("showwarning", "Warning", "No data available for visualization!")] |}
  else
    {| db := db self; chart_var := chart_var self;
       analysis_text := analysis_text self;
       viz_canvas_frame := [make_chart (chart_var self) all_marks];
       dialogs := dialogs self |}.

(** ** The overall mean, minimum and maximum on binary64 numbers

    What numpy computes on the float64 array [all_marks_array]: every
    addition and the final division round to the nearest binary64 number.
    [np.add.reduce] is taken as the left-to-right sum. numpy adds in another
    order (the first element to the sum of the others, a long array in
    blocks); for the three equal values evaluated below the order makes no
    difference: the first addition doubles the value, which is exact, and
    the second one rounds. [np.min] and [np.max] keep a nan. *)

Module Binary64.
Import Floats.

Definition np_sum (a : list float) : float := foldl PrimFloat.add 0%float a.

Definition np_size (a : list float) : float :=
  PrimFloat.of_uint63 (Uint63.of_Z (Z.of_nat (length a))).

Definition np_mean (a : list float) : float :=
  PrimFloat.div (np_sum a) (np_size a).

Definition np_min (a : list float) : float :=
  match a with
  | [] => PrimFloat.nan
  | x :: a' =>
      foldl (λ in1 in2,
        if PrimFloat.leb in1 in2 || PrimFloat.is_nan in1 then in1 else in2) x a'
  end.

Definition np_max (a : list float) : float :=
  match a with
  | [] => PrimFloat.nan
  | x :: a' =>
      foldl (λ in1 in2,
        if PrimFloat.leb in2 in1 || PrimFloat.is_nan in1 then in1 else in2) x a'
  end.

(** [calculate_grade] on a binary64 average: [avg >= 90] compares [avg]
    with the float 90.0, and a nan fails every comparison. *)
Definition calculate_grade (avg : float) : string :=
  if PrimFloat.leb 90 avg then "A+"
  else if PrimFloat.leb 80 avg then "A"
  else if PrimFloat.leb 70 avg then "B"
  else if PrimFloat.leb 60 avg then "C"
  else if PrimFloat.leb 50 avg then "D"
  else "F".

(** [float("0.1")], [float("89.999")] and [float("49.999")]: the binary64
    numbers nearest to these decimals. *)
Definition float_0_1 : float := 0x1.999999999999ap-4%float.

Definition float_89_999 : float := 0x1.67fef9db22d0ep+6%float.

Definition float_49_999 : float := 0x1.8ffdf3b645a1dp+5%float.

Definition float_90 : float := 90%float.

Definition float_70 : float := 70%float.

Definition float_50 : float := 50%float.

(** The marks of the session below, as floats. *)
Definition session_marks : list float := [95; 85; 55; 45]%float.

End Binary64.

(** ** A session

    Two students and four marks entered into a fresh database, all on the
    day [today]. *)
Definition session (today : string) : Store :=
  let db := create_tables None in
  let db := (add_student today "S1" "Asha" 20 "10A" db).2 in
  let db := (add_student today "S2" "Ravi" 21 "10A" db).2 in
  let db := (add_marks today "S1" "Math" 95 None db).2 in
  let db := (add_marks today "S1" "Science" 85 None db).2 in
  let db := (add_marks today "S2" "Math" 55 None db).2 in
  let db := (add_marks today "S2" "Science" 45 None db).2 in
  db.

(** ** The forms of the window

    The callbacks of the "Add Student" and "Add Marks" tabs and of the
    Refresh button. The window holds, besides the application state above ([analyzer]),
    the text of the seven entry fields and the rows shown in the student
    tree. Three functions of Python are parameters: [str.strip], and
    [int] and [float] applied to a string, [None] standing for their
    ValueError. *)


(** A Python [float]: a finite number, an infinity or nan. *)
Inductive PyFloat :=
  | Finite (q : Q)
  | PosInf
  | NegInf
  | NaN.

(** [marks < 0 or marks > 100]; every comparison with nan is false. *)
Definition out_of_range (marks : PyFloat) : bool :=
  match marks with
  | Finite q => negb (Qle_bool 0 q) || negb (Qle_bool q 100)
  | PosInf => true
  | NegInf => true
  | NaN => false
  end.

Record Window := mkWindow {
  analyzer : App;
  roll_entry : string;
  name_entry : string;
  age_entry : string;
  class_entry : string;
  marks_roll_entry : string;
  subject_entry : string;
  marks_entry : string;
  student_tree : list Student
}.

(** How a callback ends: it returns, or an exception leaves it (Tk reports
    the exception and the window stays as the callback left it). *)
Inductive Outcome :=
  | Returns (self : Window)
  | Raises (exception : string) (self : Window).

(** [messagebox.showerror], [showinfo], ...: the dialog is shown. *)
Definition show (kind title message : string) (self : Window) : Window :=
  let a := analyzer self in
  mkWindow
    (mkApp (db a) (chart_var a) (analysis_text a) (viz_canvas_frame a)
           (dialogs a ++ [(kind, title, message)]))
    (roll_entry self) (name_entry self) (age_entry self) (class_entry self)
    (marks_roll_entry self) (subject_entry self) (marks_entry self)
    (student_tree self).

(** The window after a [DatabaseManager] call that left the store [db']. *)
Definition with_db (db' : Store) (self : Window) : Window :=
  let a := analyzer self in
  mkWindow
    (mkApp db' (chart_var a) (analysis_text a) (viz_canvas_frame a) (dialogs a))
    (roll_entry self) (name_entry self) (age_entry self) (class_entry self)
    (marks_roll_entry self) (subject_entry self) (marks_entry self)
    (student_tree self).

(** [all([...])] on strings: none of them is empty. *)
Definition all (fields : list string) : bool :=
  forallb (λ field, negb (String.eqb field "")) fields.

Module StudentPerformanceAnalyzer.
Section callbacks.
Context (strip : string → string) (int : string → option Z)
        (float : string → option PyFloat).

Definition clear_student_form (self : Window) : Window :=
  mkWindow (analyzer self) "" "" "" ""
    (marks_roll_entry self) (subject_entry self) (marks_entry self)
    (student_tree self).

Definition clear_marks_form (self : Window) : Window :=
  mkWindow (analyzer self)
    (roll_entry self) (name_entry self) (age_entry self) (class_entry self)
    "" "" "" (student_tree self).


(** [add_student]: after a successful insertion the callback calls
    [messagebox.showsuccess], a function the [messagebox] module does not
    have: the attribute lookup raises AttributeError, and neither the form
    is cleared nor the list refreshed. [int] gives a Python [int] of any
    size; the OverflowError of [self.db.add_student] at an age that does
    not fit an SQLite INTEGER is not caught here either. *)
Definition add_student (today : string) (self : Window) : Outcome :=
  let roll_no := strip (roll_entry self) in
  let name := strip (name_entry self) in
  let age := strip (age_entry self) in
  let class_name := strip (class_entry self) in
  if negb (all [roll_no; name; age; class_name]) then
    Returns (show "showerror" "Error" "All fields are required!" self)
  else
    match int age with
    | None => Returns (show "showerror" "Error" "Age must be a number!" self)
    | Some age =>
        match
          add_student today roll_no name age class_name (db (analyzer self))
        with
        | (Raise exception, db') => Raises exception (with_db db' self)
        | (Return true, db') => Raises "AttributeError" (with_db db' self)
        | (Return false, db') =>
            Returns
              (show "showerror" "Error"
                 ("Student with roll number " ++ roll_no ++ " already exists!")
                 (with_db db' self))
        end
    end.

(** [add_marks]. A nan passes the range check; the row it leads to has no
    rational mark, which this model of the store cannot hold: the result is
    [None] then. *)
Definition add_marks (today : string) (self : Window) : option Window :=
  let roll_no := strip (marks_roll_entry self) in
  let subject := strip (subject_entry self) in
  let marks := strip (marks_entry self) in
  let rejected :=
    show "showerror" "Error" "Marks must be a number between 0 and 100!" self in
  if negb (all [roll_no; subject; marks]) then
    Some (show "showerror" "Error" "All fields are required!" self)
  else
    match float marks with
    | None => Some rejected
    | Some marks =>
        if out_of_range marks then Some rejected
        else
          match marks with
          | Finite marks =>
              let '(added, db') :=
                add_marks today roll_no subject marks None (db (analyzer self)) in
              if added then
                Some (clear_marks_form
                        (show "showinfo" "Success"
                           ("Marks added for " ++ subject ++ "!")
                           (with_db db' self)))
              else
                Some (show "showerror" "Error" "Failed to add marks!"
                        (with_db db' self))
          | _ => None
          end
    end.

End callbacks.
End StudentPerformanceAnalyzer.


(** * Properties *)

(** ** Sorting *)

Section order_by_facts.
Context {A : Type} (R : relation A) `{!RelDecision R}.

Lemma insert_row_Permutation x l : insert_row R x l ≡ₚ x :: l.
Proof.
  induction l as [|y l IH]; simpl; [done|].
  case_decide; [done|].
  rewrite IH. apply Permutation_swap.
Qed.

Lemma order_by_Permutation l : order_by R l ≡ₚ l.
Proof.
  induction l as [|x l IH]; simpl; [done|].
  by rewrite insert_row_Permutation, IH.
Qed.

Lemma elem_of_order_by x l : x ∈ order_by R l ↔ x ∈ l.
Proof. by rewrite order_by_Permutation. Qed.

Lemma order_by_nil_inv l : order_by R l = [] → l = [].
Proof.
  intros H. apply Permutation_nil_r. rewrite <- H.
  symmetry. apply order_by_Permutation.
Qed.

Lemma length_order_by l : length (order_by R l) = length l.
Proof. by rewrite order_by_Permutation. Qed.

Lemma HdRel_insert_row a x l :
  R a x → HdRel R a l → HdRel R a (insert_row R x l).
Proof.
  intros Hax Hl. destruct l as [|y l]; simpl.
  - by constructor.
  - case_decide; constructor; [done|]. by inversion Hl.
Qed.

Lemma Sorted_insert_row `{!Total R} x l :
  Sorted R l → Sorted R (insert_row R x l).
Proof.
  induction 1 as [|y l Hl IH Hy]; simpl.
  - by repeat constructor.
  - case_decide as Hxy.
    + by repeat constructor.
    + constructor; [done|].
      apply HdRel_insert_row; [|done].
      by destruct (total R x y).
Qed.

Lemma Sorted_order_by `{!Total R} l : Sorted R (order_by R l).
Proof.
  induction l as [|x l IH]; simpl; [constructor|].
  by apply Sorted_insert_row.
Qed.

Lemma StronglySorted_order_by `{!Total R, !Transitive R} l :
  StronglySorted R (order_by R l).
Proof. apply Sorted_StronglySorted; [done|]. apply Sorted_order_by. Qed.

Section filter.
Context (P : A → Prop) `{!∀ x, Decision (P x)}.

Lemma insert_row_filter_out x l :
  ¬ P x → filter P (insert_row R x l) = filter P l.
Proof.
  intros Hx. induction l as [|y l IH]; simpl.
  - by rewrite filter_cons_False.
  - case_decide.
    + by rewrite (filter_cons_False _ x).
    + rewrite !(filter_cons _ y), IH. done.
Qed.

Lemma insert_row_filter_in `{!Transitive R} x l :
  P x → StronglySorted R l →
  filter P (insert_row R x l) = insert_row R x (filter P l).
Proof.
  intros Hx. induction 1 as [|y l Hl IH Hy]; simpl.
  - by rewrite filter_cons_True.
  - case_decide as Hxy.
    + rewrite (filter_cons_True _ x) by done.
      rewrite (filter_cons _ y). case_decide as HPy.
      * simpl. by rewrite decide_True.
      * assert (Forall (R x) (filter P l)) as Hall.
        { apply Forall_forall. intros z [_ Hz]%list_elem_of_filter.
          rewrite Forall_forall in Hy. by trans y; [|apply Hy]. }
        destruct (filter P l) as [|z l'] eqn:E; simpl; [done|].
        rewrite decide_True; [done|]. by inversion Hall.
    + rewrite !(filter_cons _ y). case_decide.
      * simpl. rewrite decide_False by done. by rewrite IH.
      * done.
Qed.

Lemma order_by_filter `{!Total R, !Transitive R} l :
  filter P (order_by R l) = order_by R (filter P l).
Proof.
  induction l as [|x l IH]; simpl; [done|].
  rewrite (filter_cons _ x). case_decide.
  - simpl. rewrite <- IH. apply insert_row_filter_in; [done|].
    apply StronglySorted_order_by.
  - by rewrite insert_row_filter_out.
Qed.
End filter.
End order_by_facts.

(** ** The orders of the queries *)

#[global] Instance by_roll_no_total : Total by_roll_no.
Proof. intros s1 s2. apply (total String.le). Qed.

#[global] Instance by_roll_no_trans : Transitive by_roll_no.
Proof. unfold by_roll_no. intros s1 s2 s3 ??. by etrans. Qed.

#[global] Instance by_subject_total : Total by_subject.
Proof. intros m1 m2. apply (total String.le). Qed.

#[global] Instance by_subject_trans : Transitive by_subject.
Proof. unfold by_subject. intros m1 m2 m3 ??. by etrans. Qed.

#[global] Instance by_key_total {V} : Total (@by_key V).
Proof. intros kv1 kv2. apply (total String.le). Qed.

#[global] Instance by_key_trans {V} : Transitive (@by_key V).
Proof. unfold by_key. intros kv1 kv2 kv3 ??. by etrans. Qed.

#[global] Instance by_roll_no_subject_total : Total by_roll_no_subject.
Proof.
  intros [s1 m1] [s2 m2]. unfold by_roll_no_subject. simpl.
  destruct (decide (s_roll_no s1 = s_roll_no s2)) as [Heq|Hne].
  - rewrite Heq.
    destruct (total String.le (m_subject m1) (m_subject m2)); [left|right]; done.
  - destruct (total String.le (s_roll_no s1) (s_roll_no s2)); [left|right];
      split; try done; intros ?; congruence.
Qed.

#[global] Instance by_roll_no_subject_trans : Transitive by_roll_no_subject.
Proof.
  intros [s1 m1] [s2 m2] [s3 m3]. unfold by_roll_no_subject. simpl.
  intros [H12 S12] [H23 S23]. split; [by etrans|].
  intros Heq. rewrite <- Heq in H23.
  assert (s_roll_no s1 = s_roll_no s2) as E by (by apply (anti_symm String.le)).
  etrans; [by apply S12|]. apply S23. congruence.
Qed.

#[global] Instance Qle_total : Total Qle.
Proof.
  intros x y. destruct (Qlt_le_dec x y) as [H|H]; [left|right]; [|done].
  by apply Qlt_le_weak.
Qed.

#[global] Instance Qle_transitive : Transitive Qle.
Proof. intros x y z. apply Qle_trans. Qed.

(** ** The record store *)

Lemma elem_of_roll_nos r db :
  r ∈ roll_nos db ↔ ∃ s, s ∈ tbl_students db ∧ s_roll_no s = r.
Proof.
  unfold roll_nos. rewrite list_elem_of_fmap.
  split; intros (s & H1 & H2); exists s; done.
Qed.

Lemma add_student_overflow today r n a c db :
  sqlite_integer a = false →
  add_student today r n a c db = (Raise "OverflowError", db).
Proof. intros Ha. unfold add_student. by rewrite Ha. Qed.

Lemma add_student_present today r n a c db :
  sqlite_integer a = true → r ∈ roll_nos db →
  add_student today r n a c db = (Return false, db).
Proof. intros Ha Hr. unfold add_student. rewrite Ha. simpl. by rewrite decide_True. Qed.

Lemma add_student_absent today r n a c db :
  sqlite_integer a = true → r ∉ roll_nos db →
  add_student today r n a c db =
    (Return true, mkStore (tbl_students db ++ [mkStudent r n a c today])
                          (tbl_marks db) (seq_marks db)).
Proof. intros Ha Hr. unfold add_student. rewrite Ha. simpl. by rewrite decide_False. Qed.


(** The three ways [add_student] ends. *)
Lemma add_student_cases today r n a c db :
  (sqlite_integer a = false ∧
   add_student today r n a c db = (Raise "OverflowError", db)) ∨
  (sqlite_integer a = true ∧ r ∈ roll_nos db ∧
   add_student today r n a c db = (Return false, db)) ∨
  (sqlite_integer a = true ∧ (r ∉ roll_nos db) ∧
   add_student today r n a c db =
     (Return true, mkStore (tbl_students db ++ [mkStudent r n a c today])
                           (tbl_marks db) (seq_marks db))).
Proof.
  destruct (sqlite_integer a) eqn:Ha.
  - right. destruct (decide (r ∈ roll_nos db)) as [Hr|Hr]; [left|right].
    + by rewrite add_student_present.
    + by rewrite add_student_absent.
  - left. by rewrite add_student_overflow.
Qed.

Lemma store_ok_create_tables : store_ok (create_tables None).
Proof. split; simpl; constructor. Qed.

Lemma store_ok_add_student today r n a c db :
  store_ok db → store_ok (add_student today r n a c db).2.
Proof.
  intros [H1 H2 H3].
  destruct (add_student_cases today r n a c db)
    as [[_ ->]|[(_ & _ & ->)|(_ & Hr & ->)]]; simpl; [done..|].
  split; simpl; [|done..].
  unfold roll_nos. simpl. rewrite fmap_app. simpl.
  apply NoDup_app. split; [done|]. split; [|apply NoDup_singleton].
  intros x Hx ->%list_elem_of_singleton. done.
Qed.

Lemma store_ok_add_marks today r subj mk d db :
  store_ok db → store_ok (add_marks today r subj mk d db).2.
Proof.
  intros [H1 H2 H3]. split; simpl; [done|..].
  - rewrite fmap_app. simpl. apply NoDup_app. split; [done|].
    split; [|apply NoDup_singleton].
    intros x Hx ->%list_elem_of_singleton.
    apply list_elem_of_fmap in Hx as (m & Hm & Hin).
    rewrite Forall_forall in H3. specialize (H3 m Hin). lia.
  - apply Forall_app. split.
    + eapply Forall_impl; [done|]. simpl. intros. lia.
    + repeat constructor. simpl. lia.
Qed.

Lemma NoDup_fmap_filter {A B} (f : A → B) (P : A → Prop)
    `{!∀ x, Decision (P x)} (l : list A) :
  NoDup (f <$> l) → NoDup (f <$> filter P l).
Proof.
  induction l as [|x l IH]; [done|].
  rewrite fmap_cons, NoDup_cons. intros [Hx Hnd].
  rewrite filter_cons. case_decide; [|by apply IH].
  rewrite fmap_cons, NoDup_cons. split; [|by apply IH].
  intros (y & Hy & [_ Hin]%list_elem_of_filter)%list_elem_of_fmap.
  apply Hx. rewrite Hy. by apply list_elem_of_fmap_2.
Qed.

Lemma store_ok_delete_student r db :
  store_ok db → store_ok (delete_student r db).2.
Proof.
  intros [H1 H2 H3]. split; simpl.
  - by apply NoDup_fmap_filter.
  - by apply NoDup_fmap_filter.
  - rewrite Forall_forall in H3. apply Forall_forall.
    intros m [_ Hm]%list_elem_of_filter. by apply H3.
Qed.

Lemma store_ok_step db db' : db_step db db' → store_ok db → store_ok db'.
Proof.
  destruct 1; auto using store_ok_add_student, store_ok_add_marks,
    store_ok_delete_student.
Qed.

(** Every store the program builds satisfies the schema's constraints. *)
Lemma reachable_store_ok db : reachable db → store_ok db.
Proof.
  unfold reachable. intros H.
  revert db H. apply (rtc_ind_r (R:=db_step) store_ok).
  - apply store_ok_create_tables.
  - intros db db' _ Hstep IH. by eapply store_ok_step.
Qed.

Lemma filter_none {A} (P : A → Prop) `{!∀ x, Decision (P x)} (l : list A) :
  (∀ x, x ∈ l → ¬ P x) → filter P l = [].
Proof.
  induction l as [|x l IH]; intros Hall; [done|].
  rewrite filter_cons, decide_False by (apply Hall; left).
  apply IH. intros y Hy. apply Hall. by right.
Qed.

(** A roll number that is not in the table selects no row, and a unique
    key selects exactly one. *)
Lemma filter_roll_no_absent (l : list Student) r :
  r ∉ s_roll_no <$> l → filter (λ s, s_roll_no s = r) l = [].
Proof.
  induction l as [|x l IH]; intros Hr; [done|].
  rewrite fmap_cons, not_elem_of_cons in Hr. destruct Hr as [Hx Hr].
  rewrite filter_cons, decide_False by done. by apply IH.
Qed.

Lemma filter_roll_no_unique (l : list Student) r :
  NoDup (s_roll_no <$> l) → r ∈ s_roll_no <$> l →
  length (filter (λ s, s_roll_no s = r) l) = 1.
Proof.
  induction l as [|x l IH]; intros Hnd Hin; [by inv Hin|].
  rewrite fmap_cons in Hnd, Hin. apply NoDup_cons in Hnd as [Hx Hnd].
  rewrite filter_cons. case_decide as E.
  - subst r. by rewrite filter_roll_no_absent.
  - apply elem_of_cons in Hin as [->|Hin]; [done|]. by apply IH.
Qed.

(** *** The queries *)

Lemma elem_of_students_join_marks db s m :
  (s, m) ∈ students_join_marks db ↔
  s ∈ tbl_students db ∧ m ∈ tbl_marks db ∧ s_roll_no s = m_roll_no m.
Proof.
  unfold students_join_marks. rewrite list_elem_of_bind. split.
  - intros (s' & Hm & Hs).
    apply list_elem_of_bind in Hm as (m' & Hsm & Hm).
    apply list_elem_of_singleton in Hsm. injection Hsm as -> ->.
    apply list_elem_of_filter in Hm as [Heq Hm]. done.
  - intros (Hs & Hm & Heq). exists s. split; [|done].
    apply list_elem_of_bind. exists m. split; [apply list_elem_of_here|].
    by apply list_elem_of_filter.
Qed.

Lemma elem_of_get_all_marks db row :
  row ∈ get_all_marks db ↔
  ∃ s m, s ∈ tbl_students db ∧ m ∈ tbl_marks db ∧
         s_roll_no s = m_roll_no m ∧
         row = (s_roll_no s, s_name s, m_subject m, m_marks m).
Proof.
  unfold get_all_marks. rewrite list_elem_of_fmap. split.
  - intros ([s m] & -> & Hin). apply elem_of_order_by in Hin.
    apply elem_of_students_join_marks in Hin as (Hs & Hm & Heq).
    by exists s, m.
  - intros (s & m & Hs & Hm & Heq & ->). exists (s, m). split; [done|].
    apply elem_of_order_by. by apply elem_of_students_join_marks.
Qed.

Lemma get_all_marks_roll_no db row :
  row ∈ get_all_marks db → row.1.1.1 ∈ roll_nos db.
Proof.
  intros (s & m & Hs & _ & _ & ->)%elem_of_get_all_marks. simpl.
  apply elem_of_roll_nos. by exists s.
Qed.

(** With no mark entries at all, the join is empty. *)
Lemma get_all_marks_no_marks db : tbl_marks db = [] → get_all_marks db = [].
Proof.
  intros Hm. destruct (get_all_marks db) as [|row l] eqn:E; [done|].
  assert (row ∈ get_all_marks db) as Hin by (rewrite E; left).
  apply elem_of_get_all_marks in Hin as (s & m & _ & Hin & _).
  rewrite Hm in Hin. by inv Hin.
Qed.

(** A mark entry for a roll number that no student has joins with nothing. *)
Lemma students_join_marks_orphan (students : list Student) marks m :
  m_roll_no m ∉ s_roll_no <$> students →
  (s ← students;
   m' ← filter (λ m', s_roll_no s = m_roll_no m') (marks ++ [m]); [(s, m')]) =
  (s ← students;
   m' ← filter (λ m', s_roll_no s = m_roll_no m') marks; [(s, m')]).
Proof.
  induction students as [|s students IH]; intros Hr; [done|].
  rewrite fmap_cons, not_elem_of_cons in Hr. destruct Hr as [Hs Hr].
  rewrite !bind_cons, IH by done. f_equal.
  rewrite filter_app, (filter_cons _ m), decide_False by done.
  by rewrite filter_nil, app_nil_r.
Qed.

Lemma get_all_marks_add_orphan today r subj mk d db :
  r ∉ roll_nos db →
  get_all_marks (add_marks today r subj mk d db).2 = get_all_marks db.
Proof.
  intros Hr. unfold get_all_marks, students_join_marks. simpl.
  by rewrite students_join_marks_orphan.
Qed.

Lemma get_student_marks_Permutation r db :
  get_student_marks r db ≡ₚ
  (λ m, (m_subject m, m_marks m, m_exam_date m)) <$>
    filter (λ m, m_roll_no m = r) (tbl_marks db).
Proof. unfold get_student_marks. by rewrite order_by_Permutation. Qed.

Lemma get_student_marks_Sorted r db :
  Sorted (λ x y : MarkRow, String.le x.1.1 y.1.1) (get_student_marks r db).
Proof.
  unfold get_student_marks.
  apply (Sorted_fmap _ by_subject); [done|]. apply Sorted_order_by, _.
Qed.

(** ** Claims about the record store *)



(** C5: [delete_student] always returns [True]; it removes the mark entries
    of the roll number and then its student row, so that afterwards
    [get_student_marks] finds nothing for it and [get_all_students] does
    not list it, while the rows of every other roll number stay. *)
Theorem delete_student_removes_all r db :
  let db' := (delete_student r db).2 in
  (delete_student r db).1 = true ∧
  tbl_marks db' = filter (λ m, m_roll_no m ≠ r) (tbl_marks db) ∧
  tbl_students db' = filter (λ s, s_roll_no s ≠ r) (tbl_students db) ∧
  get_student_marks r db' = [] ∧
  (r ∉ s_roll_no <$> get_all_students db') ∧
  get_all_students db' =
    filter (λ s, s_roll_no s ≠ r) (get_all_students db) ∧
  (∀ r', r' ≠ r → get_student_marks r' db' = get_student_marks r' db).
Proof.
  simpl. repeat split.
  - unfold get_student_marks. simpl.
    rewrite filter_none; [done|].
    by intros m [Hne _]%list_elem_of_filter.
  - intros (s & Hs & Hin)%list_elem_of_fmap.
    apply elem_of_order_by in Hin. simpl in Hin.
    apply list_elem_of_filter in Hin as [Hne _]. done.
  - unfold get_all_students. simpl.
    rewrite (order_by_filter by_roll_no); [done|apply _..].
  - intros r' Hne. unfold get_student_marks. simpl.
    rewrite list_filter_filter_l; [done|]. intros m ->. done.
Qed.

Lemma delete_student_removes_all_witness :
  let db := session "2024-03-01" in
  let db' := (delete_student "S1" db).2 in
  get_student_marks "S1" db' = [] ∧
  get_student_marks "S2" db' = get_student_marks "S2" db.
Proof.
  intros db db'.
  destruct (delete_student_removes_all "S1" db)
    as (_ & _ & _ & Hgone & _ & _ & Hother).
  split; [exact Hgone|]. apply Hother. discriminate.
Defined.

(** C6: after a successful [add_student], [get_all_students] returns the
    student with exactly the fields supplied and the date of the insertion
    (and no other row with that roll number), and the sequence it returns
    is sorted ascending by roll number. *)
Theorem add_student_round_trip today r n a c db db'
    (Hadd : add_student today r n a c db = (Return true, db')) :
  mkStudent r n a c today ∈ get_all_students db' ∧
  filter (λ s, s_roll_no s = r) (get_all_students db') =
    [mkStudent r n a c today] ∧
  Sorted by_roll_no (get_all_students db').
Proof.
  destruct (add_student_cases today r n a c db)
    as [[_ Heq]|[(_ & _ & Heq)|(_ & Hr & Heq)]];
    rewrite Heq in Hadd; [done..|].
  injection Hadd as <-. unfold get_all_students. simpl.
  split; [|split].
  - apply elem_of_order_by. rewrite elem_of_app, list_elem_of_singleton. by right.
  - rewrite (order_by_filter by_roll_no); [|apply _..].
    rewrite filter_app, filter_roll_no_absent by done.
    by rewrite filter_cons, decide_True.
  - apply Sorted_order_by, _.
Qed.

Lemma add_student_round_trip_witness :
  let s := mkStudent "S1" "Asha" 20 "10A" "2024-03-01" in
  let db' := mkStore [s] [] 0 in
  s ∈ get_all_students db' ∧
  filter (λ s, s_roll_no s = "S1") (get_all_students db') = [s] ∧
  Sorted by_roll_no (get_all_students db').
Proof.
  exact (add_student_round_trip "2024-03-01" "S1" "Asha" 20 "10A"
           (create_tables None) _ eq_refl).
Defined.


(** C4: [add_marks] returns [True] whatever the roll number, also when no
    student has it. [get_all_marks] holds exactly the rows
    (roll_no, name, subject, marks) of a mark entry and a student with the
    same roll number: every roll number in it is a student's, and a mark
    entry added for a roll number no student has leaves it as it was. *)
Theorem add_marks_accepts_orphans_join_omits_them :
  (∀ today r subj mk d db, (add_marks today r subj mk d db).1 = true) ∧
  (∀ today r subj mk d db,
     mkMarkEntry (seq_marks db + 1) r subj mk 100 (default today d)
       ∈ tbl_marks (add_marks today r subj mk d db).2) ∧
  (∀ db row,
     row ∈ get_all_marks db ↔
     ∃ s m, s ∈ tbl_students db ∧ m ∈ tbl_marks db ∧
            s_roll_no s = m_roll_no m ∧
            row = (s_roll_no s, s_name s, m_subject m, m_marks m)) ∧
  (∀ db, get_all_marks db ≡ₚ
     (λ p, (s_roll_no p.1, s_name p.1, m_subject p.2, m_marks p.2)) <$>
       students_join_marks db) ∧
  (∀ db row, row ∈ get_all_marks db → row.1.1.1 ∈ roll_nos db) ∧
  (∀ today r subj mk d db,
     r ∉ roll_nos db →
     get_all_marks (add_marks today r subj mk d db).2 = get_all_marks db).
Proof.
  split; [done|]. split.
  { intros. simpl. rewrite elem_of_app, list_elem_of_singleton. by right. }
  split; [apply elem_of_get_all_marks|]. split.
  { intros db. unfold get_all_marks. by rewrite order_by_Permutation. }
  split; [apply get_all_marks_roll_no|].
  apply get_all_marks_add_orphan.
Qed.

Lemma add_marks_accepts_orphans_join_omits_them_witness :
  let db := mkStore [mkStudent "S1" "Asha" 20 "10A" "2024-03-01"] [] 0 in
  let db' := (add_marks "2024-03-02" "S9" "Math" 40 None db).2 in
  (add_marks "2024-03-02" "S9" "Math" 40 None db).1 = true ∧
  get_all_marks db' = get_all_marks db.
Proof.
  intros db db'.
  destruct add_marks_accepts_orphans_join_omits_them
    as (Hok & _ & _ & _ & _ & Horphan).
  split; [apply Hok|]. apply Horphan.
  unfold roll_nos. simpl. rewrite list_elem_of_singleton. discriminate.
Defined.

(** C10: [get_student_marks] returns the (subject, marks, exam_date) of all
    the mark entries with the given roll number, sorted ascending by
    subject, whether or not a student has that roll number: a mark entry
    added for a roll number no student has is returned by
    [get_student_marks], while [get_all_marks] has no row for it. *)
Theorem get_student_marks_returns_orphans r db :
  get_student_marks r db ≡ₚ
    (λ m, (m_subject m, m_marks m, m_exam_date m)) <$>
      filter (λ m, m_roll_no m = r) (tbl_marks db) ∧
  Sorted (λ x y : MarkRow, String.le x.1.1 y.1.1) (get_student_marks r db) ∧
  (∀ today subj mk d,
     r ∉ roll_nos db →
     let db' := (add_marks today r subj mk d db).2 in
     (subj, mk, default today d) ∈ get_student_marks r db' ∧
     ∀ row, row ∈ get_all_marks db' → row.1.1.1 ≠ r).
Proof.
  split; [apply get_student_marks_Permutation|].
  split; [apply get_student_marks_Sorted|].
  intros today subj mk d Hr. split.
  - rewrite get_student_marks_Permutation. simpl.
    rewrite filter_app, fmap_app, elem_of_app. right.
    rewrite filter_cons, decide_True by done. left.
  - intros row Hrow Heq. apply Hr. rewrite <- Heq.
    rewrite get_all_marks_add_orphan in Hrow by done.
    by apply get_all_marks_roll_no.
Qed.

Lemma get_student_marks_returns_orphans_witness :
  let db := mkStore [mkStudent "S1" "Asha" 20 "10A" "2024-03-01"] [] 0 in
  let db' := (add_marks "2024-03-02" "S9" "Math" 40 None db).2 in
  ("Math", 40%Q, "2024-03-02") ∈ get_student_marks "S9" db' ∧
  ∀ row, row ∈ get_all_marks db' → row.1.1.1 ≠ "S9".
Proof.
  intros db db'.
  destruct (get_student_marks_returns_orphans "S9" db) as (_ & _ & Horphan).
  apply (Horphan "2024-03-02" "Math" 40%Q None).
  unfold roll_nos. simpl. rewrite list_elem_of_singleton. discriminate.
Defined.

(** ** Claims about the reports *)

(** C9: when the store has no mark entries, [get_all_marks] is empty; and
    whenever [get_all_marks] is empty, [generate_analysis] puts the notice
    in the text box instead of a report and [generate_visualization] shows a
    warning and draws no chart; neither changes the store. *)
Theorem no_data_is_a_notice self :
  (tbl_marks (db self) = [] → get_all_marks (db self) = []) ∧
  (get_all_marks (db self) = [] →
   analysis_text (generate_analysis self) =
     Text "No data available for analysis!" ∧
   dialogs (generate_visualization self) =
     dialogs self ++
       [("showwarning", "Warning", "No data available for visualization!")] ∧
   viz_canvas_frame (generate_visualization self) = []) ∧
  db (generate_analysis self) = db self ∧
  db (generate_visualization self) = db self.
Proof.
  split; [apply get_all_marks_no_marks|].
  unfold generate_analysis, generate_visualization.
  split; [intros ->; done|].
  split; [done|]. by case_bool_decide.
Qed.

Lemma no_data_is_a_notice_witness :
  let self :=
    mkApp (mkStore [mkStudent "S1" "Asha" 20 "10A" "2024-03-01"] [] 0)
          "Grade Distribution" Blank [] [] in
  analysis_text (generate_analysis self) =
    Text "No data available for analysis!" ∧
  dialogs (generate_visualization self) =
    [("showwarning", "Warning", "No data available for visualization!")] ∧
  viz_canvas_frame (generate_visualization self) = [].
Proof.
  simpl.
  destruct (no_data_is_a_notice
              (mkApp (mkStore [mkStudent "S1" "Asha" 20 "10A" "2024-03-01"] [] 0)
                     "Grade Distribution" Blank [] []))
    as (Hempty & Hnotice & _).
  apply Hnotice, Hempty. reflexivity.
Defined.

(** ** The statistics, in exact arithmetic *)

Lemma foldl_Qplus acc a : (foldl Qplus acc a == acc + np_sum a)%Q.
Proof.
  unfold np_sum. revert acc. induction a as [|x a IH]; intros acc; simpl.
  - ring.
  - rewrite (IH (acc + x)%Q), (IH (0 + x)%Q). ring.
Qed.

Lemma np_sum_cons x a : (np_sum (x :: a) == x + np_sum a)%Q.
Proof. unfold np_sum at 1. simpl. rewrite foldl_Qplus. ring. Qed.

Lemma np_size_cons x a : (np_size (x :: a) == 1 + np_size a)%Q.
Proof.
  unfold np_size. simpl length. rewrite Nat2Z.inj_succ, <- Z.add_1_l.
  by rewrite inject_Z_plus.
Qed.

Lemma np_size_nonneg a : (0 <= np_size a)%Q.
Proof.
  unfold np_size. rewrite <- (Zle_Qle 0). lia.
Qed.

Lemma np_size_pos a : a ≠ [] → (0 < np_size a)%Q.
Proof.
  destruct a as [|x a]; [done|]. intros _.
  rewrite np_size_cons. pose proof (np_size_nonneg a). lra.
Qed.

Lemma np_sum_lower lo a :
  Forall (λ x, lo <= x)%Q a → (np_size a * lo <= np_sum a)%Q.
Proof.
  induction 1 as [|x a Hx Ha IH].
  - change (np_size []) with 0%Q. change (np_sum []) with 0%Q. lra.
  - rewrite np_sum_cons, np_size_cons. nra.
Qed.

Lemma np_sum_upper hi a :
  Forall (λ x, x <= hi)%Q a → (np_sum a <= np_size a * hi)%Q.
Proof.
  induction 1 as [|x a Hx Ha IH].
  - change (np_size []) with 0%Q. change (np_sum []) with 0%Q. lra.
  - rewrite np_sum_cons, np_size_cons. nra.
Qed.

Lemma np_mean_lower lo a :
  a ≠ [] → Forall (λ x, lo <= x)%Q a → (lo <= np_mean a)%Q.
Proof.
  intros Hne Hlo. unfold np_mean.
  apply Qle_shift_div_l; [by apply np_size_pos|].
  rewrite Qmult_comm. by apply np_sum_lower.
Qed.

Lemma np_mean_upper hi a :
  a ≠ [] → Forall (λ x, x <= hi)%Q a → (np_mean a <= hi)%Q.
Proof.
  intros Hne Hhi. unfold np_mean.
  apply Qle_shift_div_r; [by apply np_size_pos|].
  rewrite Qmult_comm. by apply np_sum_upper.
Qed.

Lemma foldl_Qmin_le acc a :
  (foldl Qmin acc a <= acc)%Q ∧ Forall (λ x, foldl Qmin acc a <= x)%Q a.
Proof.
  revert acc. induction a as [|x a IH]; intros acc; simpl.
  - split; [apply Qle_refl|constructor].
  - destruct (IH (Qmin acc x)) as [H1 H2]. split.
    + eapply Qle_trans; [done|]. apply Q.le_min_l.
    + constructor; [|done]. eapply Qle_trans; [done|]. apply Q.le_min_r.
Qed.

Lemma foldl_Qmax_ge acc a :
  (acc <= foldl Qmax acc a)%Q ∧ Forall (λ x, x <= foldl Qmax acc a)%Q a.
Proof.
  revert acc. induction a as [|x a IH]; intros acc; simpl.
  - split; [apply Qle_refl|constructor].
  - destruct (IH (Qmax acc x)) as [H1 H2]. split.
    + eapply Qle_trans; [|done]. apply Q.le_max_l.
    + constructor; [|done]. eapply Qle_trans; [|done]. apply Q.le_max_r.
Qed.

Lemma np_min_le a : Forall (λ x, np_min a <= x)%Q a.
Proof.
  destruct a as [|x a]; [constructor|]. simpl.
  destruct (foldl_Qmin_le x a). by constructor.
Qed.

Lemma np_max_ge a : Forall (λ x, x <= np_max a)%Q a.
Proof.
  destruct a as [|x a]; [constructor|]. simpl.
  destruct (foldl_Qmax_ge x a). by constructor.
Qed.

Lemma Qsquare_nonneg (y : Q) : (0 <= y * y)%Q.
Proof.
  destruct y as [n d]. unfold Qle. simpl.
  rewrite Z.mul_1_r. apply Z.square_nonneg.
Qed.

Lemma np_var_nonneg a : a ≠ [] → (0 <= np_var a)%Q.
Proof.
  intros Hne. unfold np_var. apply np_mean_lower.
  - by destruct a.
  - apply Forall_fmap, Forall_forall. intros x _. simpl.
    apply Qsquare_nonneg.
Qed.

(** ** Claims about the statistics *)

Lemma Q2R_nonneg (x : Q) : (0 <= x)%Q → (0 <= Q2R x)%R.
Proof.
  intros Hx. apply Qle_Rle in Hx.
  replace (Q2R 0) with 0%R in Hx; [done|].
  unfold Q2R. simpl. symmetry. apply Rmult_0_l.
Qed.

(** C7, in exact arithmetic: for a non-empty sequence of mark values the
    minimum is at most the arithmetic mean and the mean at most the maximum;
    the population variance is not negative, and the standard deviation is
    its non-negative square root. *)
Theorem overall_statistics_bounds (a : list Q) (Hne : a ≠ []) :
  (np_min a <= np_mean a)%Q ∧ (np_mean a <= np_max a)%Q ∧
  (0 <= np_var a)%Q ∧
  (0 <= np_std a)%R ∧ (np_std a * np_std a = Q2R (np_var a))%R.
Proof.
  split; [|split; [|split; [|split]]].
  - apply np_mean_lower; [done|]. apply np_min_le.
  - apply np_mean_upper; [done|]. apply np_max_ge.
  - by apply np_var_nonneg.
  - unfold np_std. apply sqrt_pos.
  - unfold np_std. apply sqrt_sqrt, Q2R_nonneg. by apply np_var_nonneg.
Qed.

Lemma overall_statistics_bounds_witness :
  let a := [95; 85; 55; 45]%Q in
  (np_min a <= np_mean a)%Q ∧ (np_mean a <= np_max a)%Q ∧
  (0 <= np_var a)%Q ∧
  (0 <= np_std a)%R ∧ (np_std a * np_std a = Q2R (np_var a))%R.
Proof. apply overall_statistics_bounds. discriminate. Defined.

(** C7, on binary64 numbers: the claim fails for the marks 0.1, 0.1, 0.1.
    Their sum rounds up to 0.30000000000000004, and a third of it is
    0.10000000000000002, above the maximum 0.1. *)
Lemma binary64_mean_exceeds_max :
  ¬ (∀ a : list PrimFloat.float, a ≠ [] →
       PrimFloat.leb (Binary64.np_min a) (Binary64.np_mean a) = true ∧
       PrimFloat.leb (Binary64.np_mean a) (Binary64.np_max a) = true).
Proof.
  intros H.
  destruct (H [Binary64.float_0_1; Binary64.float_0_1; Binary64.float_0_1])
    as [_ Hmax]; [discriminate|].
  vm_compute in Hmax. discriminate.
Qed.

(** *** Percentiles *)

Lemma lerp_linear a b t : (lerp a b t == a + (b - a) * t)%Q.
Proof. unfold lerp. destruct (Qle_bool (1 # 2) t); ring. Qed.

Lemma length_np_sort a : length (np_sort a) = length a.
Proof. apply length_order_by. Qed.

Lemma getitem_nonneg a i : (0 ≤ i)%Z → getitem a i = nth (Z.to_nat i) a 0%Q.
Proof.
  intros Hi. unfold getitem.
  destruct (Z.ltb_spec i 0) as [Hlt|_]; [lia|done].
Qed.

Lemma getitem_last a : getitem a (-1) = nth (length a - 1) a 0%Q.
Proof. unfold getitem. simpl. f_equal. lia. Qed.

Lemma np_size_pred a :
  (np_size a - 1 == inject_Z (Z.of_nat (length a) - 1))%Q.
Proof.
  unfold np_size, Z.sub. rewrite inject_Z_plus, inject_Z_opp. reflexivity.
Qed.

(** numpy's linear method and the specification's formula agree for every
    percentile between 0 and 100. *)
Lemma np_percentile_linear a q :
  a ≠ [] → (0 <= q)%Q → (q <= 100)%Q →
  (np_percentile a q == spec_percentile a q)%Q.
Proof.
  intros Hne Hq0 Hq100. unfold np_percentile, spec_percentile.
  fold (np_sort a). fold (np_size a).
  pose proof (np_size_pos a Hne) as Hn.
  pose proof (length_np_sort a) as Hlen.
  assert (0 < length a)%nat as Hlen0 by (destruct a; [done|simpl; lia]).
  set (arr := np_sort a) in *.
  set (vi := ((np_size a - 1) * (q / 100))%Q).
  set (rank := (q / 100 * (np_size a - 1))%Q).
  assert (rank == vi)%Q as Hrank by (unfold rank, vi; ring).
  assert (1 <= np_size a)%Q as Hn1.
  { unfold np_size. rewrite <- (Zle_Qle 1). lia. }
  assert (0 <= q / 100)%Q as Hp0 by (apply Qle_shift_div_l; lra).
  assert (q / 100 <= 1)%Q as Hp1 by (apply Qle_shift_div_r; lra).
  assert (0 <= vi)%Q as Hvi0.
  { unfold vi. apply Qmult_le_0_compat; lra. }
  assert (vi <= np_size a - 1)%Q as Hvi1.
  { unfold vi. rewrite <- (Qmult_1_r (np_size a - 1)) at 2.
    rewrite !(Qmult_comm (np_size a - 1)).
    apply Qmult_le_compat_r; lra. }
  assert (Qfloor rank = Qfloor vi) as Hfl by (by rewrite Hrank).
  rewrite Hfl. clearbody vi rank.
  rewrite (proj2 (Qle_bool_iff 0 vi) Hvi0). simpl negb. cbv iota.
  rewrite lerp_linear.
  destruct (Qle_bool (np_size a - 1) vi) eqn:Habove.
  - apply Qle_bool_iff in Habove.
    assert (vi == inject_Z (Z.of_nat (length a) - 1))%Q as Hlast.
    { rewrite <- np_size_pred. lra. }
    assert (Qfloor vi = (Z.of_nat (length a) - 1)%Z) as ->.
    { rewrite Hlast. apply Qfloor_Z. }
    rewrite getitem_last.
    replace (Z.to_nat (Z.of_nat (length a) - 1)) with (length a - 1)%nat by lia.
    rewrite Hlen.
    rewrite (nth_overflow arr (n:=S (length a - 1))) by lia. ring.
  - assert (vi < np_size a - 1)%Q as Hlt.
    { apply Qnot_le_lt. intros Hle. apply Qle_bool_iff in Hle. congruence. }
    pose proof (Qfloor_le vi) as Hfloor.
    assert (0 ≤ Qfloor vi)%Z as Hf0.
    { change 0%Z with (Qfloor 0). by apply Qfloor_resp_le. }
    assert (Qfloor vi < Z.of_nat (length a) - 1)%Z as Hf1.
    { rewrite Zlt_Qlt, <- np_size_pred. lra. }
    rewrite !getitem_nonneg by lia.
    replace (Z.to_nat (Qfloor vi + 1)) with (S (Z.to_nat (Qfloor vi))) by lia.
    rewrite (nth_indep arr (nth (Z.to_nat (Qfloor vi)) arr 0%Q) 0%Q) by lia.
    rewrite Hrank. ring.
Qed.

(** C8: for a non-empty sequence of mark values, the 25th and the 75th
    percentile of the overall statistics are the value at the fractional
    rank [p/100 * (n-1)] of the sorted sequence, linearly interpolated
    between the two neighbouring sorted elements. *)
Theorem overall_percentiles_linear (all_marks : list JoinedRow)
    (Hne : all_marks ≠ []) :
  let values := all_marks_array all_marks in
  (overall_percentile_25 (overall_statistics all_marks)
     == spec_percentile values 25)%Q ∧
  (overall_percentile_75 (overall_statistics all_marks)
     == spec_percentile values 75)%Q.
Proof.
  assert (all_marks_array all_marks ≠ []) as Hvalues.
  { unfold all_marks_array. by destruct all_marks. }
  simpl. split; apply np_percentile_linear; try done; lra.
Qed.

Lemma overall_percentiles_linear_witness :
  let all_marks :=
    [("S1", "Asha", "Math", 95%Q); ("S1", "Asha", "Science", 85%Q);
     ("S2", "Ravi", "Math", 55%Q)] in
  (overall_percentile_25 (overall_statistics all_marks)
     == spec_percentile (all_marks_array all_marks) 25)%Q ∧
  (overall_percentile_75 (overall_statistics all_marks)
     == spec_percentile (all_marks_array all_marks) 75)%Q.
Proof. apply overall_percentiles_linear. discriminate. Defined.

(** ** Claims about the grades *)

Lemma Qle_bool_false x y : Qle_bool x y = false ↔ (y < x)%Q.
Proof.
  split.
  - intros H. apply Qnot_le_lt. intros Hle.
    apply Qle_bool_iff in Hle. congruence.
  - intros H. destruct (Qle_bool x y) eqn:E; [|done].
    apply Qle_bool_iff in E. lra.
Qed.

(** C1: [calculate_grade] is a total function of the average that checks
    the thresholds from the highest down, each one inclusive:
    [avg >= 90] gives A+, otherwise [avg >= 80] gives A, otherwise
    [avg >= 70] gives B, otherwise [avg >= 60] gives C, otherwise
    [avg >= 50] gives D, otherwise F. In particular 90.0 gives A+, 89.999
    gives A, 50.0 gives D and 49.999 gives F, as rationals and as binary64
    numbers. *)
Theorem calculate_grade_thresholds (avg : Q) :
  ((90 <= avg)%Q → calculate_grade avg = "A+") ∧
  ((80 <= avg)%Q ∧ (avg < 90)%Q → calculate_grade avg = "A") ∧
  ((70 <= avg)%Q ∧ (avg < 80)%Q → calculate_grade avg = "B") ∧
  ((60 <= avg)%Q ∧ (avg < 70)%Q → calculate_grade avg = "C") ∧
  ((50 <= avg)%Q ∧ (avg < 60)%Q → calculate_grade avg = "D") ∧
  ((avg < 50)%Q → calculate_grade avg = "F") ∧
  calculate_grade 90 = "A+" ∧
  calculate_grade (89999 # 1000) = "A" ∧
  calculate_grade 50 = "D" ∧
  calculate_grade (49999 # 1000) = "F" ∧
  Binary64.calculate_grade Binary64.float_90 = "A+" ∧
  Binary64.calculate_grade Binary64.float_89_999 = "A" ∧
  Binary64.calculate_grade Binary64.float_50 = "D" ∧
  Binary64.calculate_grade Binary64.float_49_999 = "F" ∧
  Binary64.calculate_grade PrimFloat.nan = "F".
Proof.
  unfold calculate_grade.
  repeat split; try reflexivity; intros H;
    repeat match goal with
    | |- context [Qle_bool ?x avg] =>
        let E := fresh "E" in
        destruct (Qle_bool x avg) eqn:E;
        [apply Qle_bool_iff in E|apply Qle_bool_false in E]
    end; try reflexivity; exfalso; lra.
Qed.

Lemma calculate_grade_thresholds_witness :
  calculate_grade 85 = "A" ∧ calculate_grade (99 # 2) = "F" ∧
  calculate_grade 100 = "A+".
Proof.
  destruct (calculate_grade_thresholds 85) as (_ & HA & _).
  destruct (calculate_grade_thresholds (99 # 2)) as (_ & _ & _ & _ & _ & HF & _).
  destruct (calculate_grade_thresholds 100) as (Hplus & _).
  split; [apply HA; split; [discriminate|reflexivity]|].
  split; [apply HF; reflexivity|apply Hplus; discriminate].
Defined.

(** C3: from an empty store, after inserting S1 (Asha, 20, 10A) and S2
    (Ravi, 21, 10A) and the marks S1/Math=95, S1/Science=85, S2/Math=55 and
    S2/Science=45, the overall mean is 70, S1 has the average 90 and the
    grade A+, S2 the average 50 and the grade D, the mean of Math is 75, and
    the grade distribution has the labels A+ and D with one student each,
    the grades without a student being left out. The four marks are binary64
    numbers and their binary64 mean is 70.0 as well. *)
Theorem session_report (today : string) :
  let all_marks := get_all_marks (session today) in
  let report := analysis all_marks in
  all_marks =
    [("S1", "Asha", "Math", 95%Q); ("S1", "Asha", "Science", 85%Q);
     ("S2", "Ravi", "Math", 55%Q); ("S2", "Ravi", "Science", 45%Q)] ∧
  (overall_mean (overall report) == 70)%Q ∧
  (λ l, (line_roll_no l, line_name l, Qred (line_avg l), line_grade l)) <$>
    student_wise report =
    [("S1", "Asha", 90%Q, "A+"); ("S2", "Ravi", 50%Q, "D")] ∧
  (λ l, (line_subject l, Qred (line_mean l))) <$> subject_wise report =
    [("Math", 75%Q); ("Science", 65%Q)] ∧
  grade_counts all_marks =
    [("A+", 1); ("A", 0); ("B", 0); ("C", 0); ("D", 1); ("F", 0)] ∧
  plot_grade_distribution all_marks = (["A+"; "D"], [1; 1]) ∧
  make_chart "Grade Distribution" all_marks =
    GradeDistribution ["A+"; "D"] [1; 1] ∧
  Binary64.np_mean Binary64.session_marks = Binary64.float_70.
Proof. vm_compute. repeat split. Qed.

(** * Further properties of the record store *)

Lemma filter_all {A} (P : A → Prop) `{!∀ x, Decision (P x)} (l : list A) :
  (∀ x, x ∈ l → P x) → filter P l = l.
Proof.
  induction l as [|x l IH]; intros Hall; [done|].
  rewrite filter_cons, decide_True by (apply Hall; left).
  f_equal. apply IH. intros y Hy. apply Hall. by right.
Qed.

Lemma filter_fmap_comm {A B} (f : A → B) (P : B → Prop)
    `{!∀ y, Decision (P y)} (l : list A) :
  filter P (f <$> l) = f <$> filter (λ x, P (f x)) l.
Proof.
  induction l as [|x l IH]; [done|].
  rewrite fmap_cons, !filter_cons. case_decide; by rewrite IH.
Qed.

Lemma db_step_seq_marks db db' : db_step db db' → (seq_marks db ≤ seq_marks db')%Z.
Proof.
  destruct 1 as [today r n a c| |]; simpl; [|lia|lia].
  destruct (add_student_cases today r n a c db)
    as [[_ ->]|[(_ & _ & ->)|(_ & _ & ->)]]; simpl; lia.
Qed.

Lemma rtc_db_step_seq_marks db db' :
  rtc db_step db db' → (seq_marks db ≤ seq_marks db')%Z.
Proof.
  induction 1 as [|db1 db2 db3 Hstep _ IH]; [lia|].
  apply db_step_seq_marks in Hstep. lia.
Qed.

Lemma rtc_db_step_store_ok db db' :
  rtc db_step db db' → store_ok db → store_ok db'.
Proof. induction 1; eauto using store_ok_step. Qed.

(** X1: the constraints of the schema are an invariant. A fresh database
    file has unique roll numbers, unique mark ids and no id above the
    AUTOINCREMENT counter, and from a store that has, every sequence of
    [add_student], [add_marks] and [delete_student] calls leads to a store
    that has. *)
Theorem schema_constraints_invariant db db'
    (Hok : store_ok db) (Hsteps : rtc db_step db db') :
  store_ok (create_tables None) ∧ store_ok db'.
Proof.
  split; [apply store_ok_create_tables|]. by eapply rtc_db_step_store_ok.
Qed.

Lemma session_reachable today : reachable (session today).
Proof.
  unfold reachable, session. cbv zeta.
  do 4 (eapply rtc_r; [|apply step_add_marks]).
  do 2 (eapply rtc_r; [|apply step_add_student]).
  apply rtc_refl.
Qed.

Lemma schema_constraints_invariant_witness :
  store_ok (create_tables None) ∧ store_ok (session "2024-03-01").
Proof.
  apply (schema_constraints_invariant (create_tables None)).
  - apply store_ok_create_tables.
  - apply session_reachable.
Defined.

(** X2: AUTOINCREMENT never hands out an id again. Whatever calls are made
    in between, deletions included, the id that the next [add_marks]
    assigns is larger than every id that was in the marks table before. *)
Theorem mark_ids_never_reused db db' today r subj mk d m
    (Hok : store_ok db) (Hsteps : rtc db_step db db')
    (Hm : m ∈ tbl_marks db) :
  ∃ m', tbl_marks (add_marks today r subj mk d db').2 = tbl_marks db' ++ [m'] ∧
        m_roll_no m' = r ∧ (m_id m < m_id m')%Z ∧
        Forall (λ m0, (m_id m0 < m_id m')%Z) (tbl_marks db').
Proof.
  eexists. split; [done|]. simpl. split; [done|].
  pose proof (rtc_db_step_seq_marks _ _ Hsteps) as Hseq.
  pose proof (rtc_db_step_store_ok _ _ Hsteps Hok) as Hok'.
  split.
  - destruct Hok as [_ _ Hle]. rewrite Forall_forall in Hle.
    specialize (Hle m Hm). lia.
  - destruct Hok' as [_ _ Hle]. eapply Forall_impl; [done|].
    simpl. intros. lia.
Qed.

Lemma mark_ids_never_reused_witness :
  let db := session "2024-03-01" in
  let db' := (delete_student "S1" db).2 in
  ∃ m', tbl_marks (add_marks "2024-03-02" "S2" "Art" 60 None db').2 =
          tbl_marks db' ++ [m'] ∧
        m_roll_no m' = "S2" ∧ (1 < m_id m')%Z ∧
        Forall (λ m0, (m_id m0 < m_id m')%Z) (tbl_marks db').
Proof.
  intros db db'.
  apply (mark_ids_never_reused db db' "2024-03-02" "S2" "Art" 60%Q None
           (mkMarkEntry 1 "S1" "Math" 95 100 "2024-03-01")).
  - apply reachable_store_ok, session_reachable.
  - apply rtc_once, step_delete_student.
  - vm_compute. left.
Defined.



Lemma StronglySorted_NoDup_strict {A B} (R : relation A) (f : A → B) l :
  StronglySorted R l → NoDup (f <$> l) →
  StronglySorted (λ x y, R x y ∧ f x ≠ f y) l.
Proof.
  induction 1 as [|x l Hl IH Hx]; intros Hnd; [constructor|].
  rewrite fmap_cons in Hnd. apply NoDup_cons in Hnd as [Hnx Hnd].
  constructor; [by apply IH|].
  rewrite Forall_forall in Hx. apply Forall_forall. intros y Hy.
  split; [by apply Hx|]. intros Heq. apply Hnx. rewrite Heq.
  by apply list_elem_of_fmap_2.
Qed.

(** X4: in a store with unique roll numbers, [get_all_students] lists each
    row of the table once, in strictly ascending order of roll number: every
    row's roll number is below that of every later row. *)
Theorem get_all_students_strictly_ascending db (Hok : store_ok db) :
  get_all_students db ≡ₚ tbl_students db ∧
  StronglySorted
    (λ s1 s2, String.le (s_roll_no s1) (s_roll_no s2) ∧
              s_roll_no s1 ≠ s_roll_no s2)
    (get_all_students db).
Proof.
  unfold get_all_students. split; [apply order_by_Permutation|].
  apply (StronglySorted_NoDup_strict by_roll_no s_roll_no).
  - apply StronglySorted_order_by; apply _.
  - rewrite order_by_Permutation. apply Hok.
Qed.

Lemma get_all_students_strictly_ascending_witness :
  let db := session "2024-03-01" in
  get_all_students db ≡ₚ tbl_students db ∧
  StronglySorted
    (λ s1 s2, String.le (s_roll_no s1) (s_roll_no s2) ∧
              s_roll_no s1 ≠ s_roll_no s2)
    (get_all_students db).
Proof.
  apply get_all_students_strictly_ascending.
  apply reachable_store_ok, session_reachable.
Defined.

(** X5: [add_marks] round trip. Whatever the roll number, with or without
    an exam date, the entry is stored with the next id and [max_marks] 100,
    and [get_student_marks] then returns one row more for that roll number:
    the subject, the marks and the date given (today's date without one).
    The rows of the other roll numbers and the students are unchanged. *)
Theorem add_marks_round_trip today r subj mk d db :
  let db' := (add_marks today r subj mk d db).2 in
  tbl_marks db' =
    tbl_marks db ++
      [mkMarkEntry (seq_marks db + 1) r subj mk 100 (default today d)] ∧
  get_student_marks r db' ≡ₚ
    get_student_marks r db ++ [(subj, mk, default today d)] ∧
  (∀ r', r' ≠ r → get_student_marks r' db' = get_student_marks r' db) ∧
  get_all_students db' = get_all_students db.
Proof.
  simpl. split; [done|]. split; [|split; [|done]].
  - rewrite !get_student_marks_Permutation. simpl.
    rewrite filter_app, fmap_app, filter_cons, decide_True by done. done.
  - intros r' Hne. unfold get_student_marks. simpl.
    rewrite filter_app, filter_cons, decide_False by done.
    by rewrite filter_nil, app_nil_r.
Qed.

Lemma add_marks_round_trip_witness :
  let db := session "2024-03-01" in
  let db' := (add_marks "2024-03-02" "S1" "Art" 70 (Some "2024-02-20") db).2 in
  get_student_marks "S2" db' = get_student_marks "S2" db.
Proof.
  intros db db'.
  destruct (add_marks_round_trip "2024-03-02" "S1" "Art" 70%Q
              (Some "2024-02-20") db) as (_ & _ & Hother & _).
  apply Hother. discriminate.
Defined.

Lemma students_join_marks_add (students : list Student) marks m :
  (s ← students;
   m' ← filter (λ m', s_roll_no s = m_roll_no m') (marks ++ [m]); [(s, m')]) ≡ₚ
  (s ← students;
   m' ← filter (λ m', s_roll_no s = m_roll_no m') marks; [(s, m')]) ++
  ((λ s, (s, m)) <$> filter (λ s, s_roll_no s = m_roll_no m) students).
Proof.
  induction students as [|s students IH]; [done|].
  rewrite !bind_cons, IH, filter_app, bind_app, (filter_cons _ s).
  rewrite (filter_cons _ m), filter_nil. case_decide.
  - rewrite bind_singleton, fmap_cons. by solve_Permutation.
  - change ([] ≫= _) with (@nil (Student * MarkEntry)).
    by solve_Permutation.
Qed.

Lemma filter_roll_no_singleton (l : list Student) s :
  NoDup (s_roll_no <$> l) → s ∈ l →
  filter (λ s', s_roll_no s' = s_roll_no s) l = [s].
Proof.
  intros Hnd Hin.
  assert (s ∈ filter (λ s', s_roll_no s' = s_roll_no s) l) as Hs
    by (by apply list_elem_of_filter).
  pose proof (filter_roll_no_unique l (s_roll_no s) Hnd
                (list_elem_of_fmap_2 _ _ _ Hin)) as Hlen.
  destruct (filter _ l) as [|x [|y k]]; simpl in Hlen; try lia.
  by apply list_elem_of_singleton in Hs as ->.
Qed.

(** X6: a mark added for a registered student shows in the joined view. In
    a store with unique roll numbers, after [add_marks] for the roll number
    of a student, [get_all_marks] has exactly one row more: the roll number
    with that student's name, the subject and the marks. *)
Theorem add_marks_joins_with_student today s subj mk d db
    (Hok : store_ok db) (Hs : s ∈ tbl_students db) :
  get_all_marks (add_marks today (s_roll_no s) subj mk d db).2 ≡ₚ
  get_all_marks db ++ [(s_roll_no s, s_name s, subj, mk)].
Proof.
  unfold get_all_marks.
  rewrite (order_by_Permutation by_roll_no_subject (students_join_marks db)).
  rewrite (order_by_Permutation by_roll_no_subject (students_join_marks _)).
  unfold students_join_marks. simpl.
  rewrite students_join_marks_add. simpl.
  rewrite filter_roll_no_singleton by (done || apply Hok).
  by rewrite fmap_app.
Qed.

Lemma add_marks_joins_with_student_witness :
  let db := session "2024-03-01" in
  let s := mkStudent "S2" "Ravi" 21 "10A" "2024-03-01" in
  get_all_marks (add_marks "2024-03-02" "S2" "Art" 60 None db).2 ≡ₚ
  get_all_marks db ++ [("S2", "Ravi", "Art", 60%Q)].
Proof.
  intros db s.
  apply (add_marks_joins_with_student "2024-03-02" s "Art" 60%Q None db).
  - apply reachable_store_ok, session_reachable.
  - vm_compute. right. left.
Defined.

(** X7: marks entered before their student is registered are adopted by the
    registration. When [add_student] returns [True], every mark entry already
    stored under the new roll number appears in [get_all_marks] with the new
    student's name, and the rows of the other roll numbers are the same as
    before. When it returns [False] or raises, [get_all_marks] is as before:
    at an age that does not fit an SQLite INTEGER the marks stay out. *)
Theorem registration_adopts_earlier_marks today r n a c db :
  let res := add_student today r n a c db in
  let db' := res.2 in
  (res.1 = Return true →
   (∀ m, m ∈ tbl_marks db → m_roll_no m = r →
         (r, n, m_subject m, m_marks m) ∈ get_all_marks db') ∧
   (∀ row, row ∈ get_all_marks db' → row.1.1.1 = r → row.1.1.2 = n) ∧
   (∀ row, row.1.1.1 ≠ r →
           row ∈ get_all_marks db' ↔ row ∈ get_all_marks db)) ∧
  (res.1 ≠ Return true → get_all_marks db' = get_all_marks db).
Proof.
  simpl.
  destruct (add_student_cases today r n a c db)
    as [[_ ->]|[(_ & _ & ->)|(_ & Hnew & ->)]]; simpl; [by split..|].
  split; [intros _|done]. split; [|split].
  - intros m Hm Hr. apply elem_of_get_all_marks.
    exists (mkStudent r n a c today), m. simpl.
    rewrite elem_of_app, list_elem_of_singleton. split; [by right|done].
  - intros row (s & m & Hs & Hm & Heq & ->)%elem_of_get_all_marks. simpl in *.
    intros Hr. apply elem_of_app in Hs as [Hs|Hs].
    + destruct Hnew. apply elem_of_roll_nos. by exists s.
    + by apply list_elem_of_singleton in Hs as ->.
  - intros row Hne. rewrite !elem_of_get_all_marks. simpl.
    split; intros (s & m & Hs & Hm & Heq & ->); exists s, m.
    + apply elem_of_app in Hs as [Hs|Hs]; [done|].
      apply list_elem_of_singleton in Hs as ->. done.
    + rewrite elem_of_app. split; [by left|done].
Qed.

Lemma registration_adopts_earlier_marks_witness :
  let db := (add_marks "2024-03-01" "S9" "Math" 40 None (create_tables None)).2 in
  let db' := (add_student "2024-03-05" "S9" "Nia" 20 "10C" db).2 in
  let db'' := (add_student "2024-03-05" "S9" "Nia" (2 ^ 63) "10C" db).2 in
  get_all_marks db = [] ∧ ("S9", "Nia", "Math", 40%Q) ∈ get_all_marks db' ∧
  get_all_marks db'' = [].
Proof.
  intros db db' db''. split; [reflexivity|].
  destruct (registration_adopts_earlier_marks "2024-03-05" "S9" "Nia" 20 "10C" db)
    as (Hadopt & _).
  destruct (registration_adopts_earlier_marks "2024-03-05" "S9" "Nia" (2 ^ 63)
              "10C" db) as (_ & Hsame).
  split.
  - destruct (Hadopt eq_refl) as (Hin & _).
    apply (Hin (mkMarkEntry 1 "S9" "Math" 40 100 "2024-03-01"));
      [vm_compute; left|reflexivity].
  - apply Hsame. discriminate.
Defined.

(** X8: [delete_student] is idempotent, and for a roll number that has
    neither a student nor a mark entry it leaves the store exactly as it
    was, still returning [True]. *)
Theorem delete_student_idempotent r db :
  delete_student r (delete_student r db).2 = delete_student r db ∧
  (r ∉ roll_nos db → Forall (λ m, m_roll_no m ≠ r) (tbl_marks db) →
   delete_student r db = (true, db)).
Proof.
  unfold delete_student. simpl. split.
  - f_equal. f_equal; by apply list_filter_filter_l.
  - intros Hr Hm. f_equal. destruct db as [students marks seq]. simpl in *.
    f_equal.
    + apply filter_all. intros s Hs Heq. apply Hr.
      apply elem_of_roll_nos. by exists s.
    + apply filter_all. by apply Forall_forall.
Qed.

Lemma delete_student_idempotent_witness :
  let db := session "2024-03-01" in
  delete_student "S7" db = (true, db).
Proof.
  intros db. apply (delete_student_idempotent "S7" db).
  - apply (bool_decide_unpack _). vm_compute. exact I.
  - apply (bool_decide_unpack _). vm_compute. exact I.
Defined.

(** X9: adding a student and deleting it again restores the store, provided
    the roll number was new and no mark entry was stored under it; mark
    entries stored under it beforehand are deleted with the student. *)
Theorem add_then_delete_restores today r n a c db
    (Hnew : r ∉ roll_nos db) :
  let db' := (delete_student r (add_student today r n a c db).2).2 in
  tbl_students db' = tbl_students db ∧
  tbl_marks db' = filter (λ m, m_roll_no m ≠ r) (tbl_marks db) ∧
  (Forall (λ m, m_roll_no m ≠ r) (tbl_marks db) → db' = db).
Proof.
  assert (filter (λ s, s_roll_no s ≠ r) (tbl_students db) = tbl_students db)
    as Hkept.
  { apply filter_all.
    intros s Hs Heq. apply Hnew. apply elem_of_roll_nos. by exists s. }
  assert (filter (λ s, s_roll_no s ≠ r)
            (tbl_students db ++ [mkStudent r n a c today]) = tbl_students db)
    as Hstudents.
  { rewrite filter_app, filter_cons, decide_False by (simpl; tauto).
    by rewrite filter_nil, app_nil_r. }
  simpl.
  destruct (add_student_cases today r n a c db)
    as [[_ ->]|[(_ & Hr & _)|(_ & _ & ->)]]; [|done|]; simpl.
  - rewrite Hkept. split; [done|]. split; [done|].
    intros Hm. rewrite filter_all by (by apply Forall_forall).
    by destruct db.
  - rewrite Hstudents. split; [done|]. split; [done|].
    intros Hm. rewrite filter_all by (by apply Forall_forall).
    by destruct db.
Qed.

Lemma add_then_delete_restores_witness :
  let db := session "2024-03-01" in
  (delete_student "S3" (add_student "2024-03-02" "S3" "Mira" 19 "10B" db).2).2
    = db.
Proof.
  intros db.
  destruct (add_then_delete_restores "2024-03-02" "S3" "Mira" 19 "10B" db)
    as (_ & _ & Hrestore).
  - apply (bool_decide_unpack _). vm_compute. exact I.
  - apply Hrestore. apply (bool_decide_unpack _). vm_compute. exact I.
Defined.

Lemma filter_pair_rows r (s : Student) (ms : list MarkEntry) :
  filter (λ p : Student * MarkEntry, s_roll_no p.1 ≠ r) (m ← ms; [(s, m)]) =
  if decide (s_roll_no s ≠ r) then m ← ms; [(s, m)] else [].
Proof.
  induction ms as [|m ms IH].
  - by case_decide.
  - rewrite bind_cons. simpl. rewrite filter_cons, IH. simpl.
    by case_decide.
Qed.

Lemma students_join_marks_delete r db :
  students_join_marks (delete_student r db).2 =
  filter (λ p, s_roll_no p.1 ≠ r) (students_join_marks db).
Proof.
  unfold students_join_marks. simpl.
  induction (tbl_students db) as [|s students IH]; [done|].
  rewrite bind_cons, filter_app, <- IH, filter_cons.
  rewrite filter_pair_rows.
  case_decide as Hs; [|done].
  rewrite bind_cons. f_equal. f_equal.
  apply list_filter_filter_l. intros m <-. done.
Qed.

(** X10: [delete_student] removes from the joined view exactly the rows of
    that roll number: [get_all_marks] afterwards is [get_all_marks] before
    without them, the other rows in the same order. *)
Theorem delete_student_joined_view r db :
  get_all_marks (delete_student r db).2 =
  filter (λ row : JoinedRow, row.1.1.1 ≠ r) (get_all_marks db).
Proof.
  unfold get_all_marks.
  rewrite students_join_marks_delete, filter_fmap_comm. simpl.
  f_equal. symmetry. apply (order_by_filter by_roll_no_subject); apply _.
Qed.

(** X11: [get_all_marks] is sorted by roll number and, among the rows of
    one roll number, by subject. *)
Theorem get_all_marks_sorted db :
  Sorted (λ row1 row2 : JoinedRow,
            String.le row1.1.1.1 row2.1.1.1 ∧
            (row1.1.1.1 = row2.1.1.1 → String.le row1.1.2 row2.1.2))
         (get_all_marks db).
Proof.
  unfold get_all_marks.
  apply (Sorted_fmap _ by_roll_no_subject); [done|].
  apply Sorted_order_by, _.
Qed.

(** X12: a deleted roll number can be registered again, and the new student
    starts without marks: after [delete_student], [add_student] with the
    same roll number and an age that fits an SQLite INTEGER returns [True]
    and the student is listed; at any other age it raises OverflowError.
    Either way [get_student_marks] returns nothing for the roll number and
    [get_all_marks] has no row for it. *)
Theorem delete_then_register_again today r n a c db (Hok : store_ok db) :
  let res := add_student today r n a c (delete_student r db).2 in
  res.1 = (if sqlite_integer a then Return true else Raise "OverflowError") ∧
  (sqlite_integer a = true →
   filter (λ s, s_roll_no s = r) (get_all_students res.2) =
     [mkStudent r n a c today]) ∧
  store_ok res.2 ∧
  get_student_marks r res.2 = [] ∧
  ∀ row, row ∈ get_all_marks res.2 → row.1.1.1 ≠ r.
Proof.
  assert (r ∉ roll_nos (delete_student r db).2) as Hnew.
  { intros (s & Hs & Heq)%elem_of_roll_nos. simpl in Hs.
    by apply list_elem_of_filter in Hs as [Hne _]. }
  assert (tbl_marks (add_student today r n a c (delete_student r db).2).2 =
          filter (λ m, m_roll_no m ≠ r) (tbl_marks db)) as Hmarks.
  { destruct (add_student_cases today r n a c (delete_student r db).2)
      as [[_ ->]|[(_ & _ & ->)|(_ & _ & ->)]]; done. }
  cbv zeta. split; [|split; [|split; [|split]]].
  - destruct (sqlite_integer a) eqn:Ha.
    + by rewrite add_student_absent.
    + by rewrite add_student_overflow.
  - intros Ha. rewrite add_student_absent by done.
    unfold get_all_students. simpl.
    rewrite (order_by_filter by_roll_no); [|apply _..].
    rewrite filter_app, filter_roll_no_absent by done.
    by rewrite filter_cons, decide_True.
  - by apply store_ok_add_student, store_ok_delete_student.
  - unfold get_student_marks. rewrite Hmarks.
    rewrite filter_none; [done|].
    by intros m [Hne _]%list_elem_of_filter.
  - intros row (s & m & Hs & Hm & Heq & ->)%elem_of_get_all_marks. simpl.
    rewrite Hmarks in Hm.
    apply list_elem_of_filter in Hm as [Hne _]. congruence.
Qed.

Lemma delete_then_register_again_witness :
  let db := session "2024-03-01" in
  let res := add_student "2024-03-02" "S1" "Omar" 22 "10B"
               (delete_student "S1" db).2 in
  res.1 = Return true ∧ get_student_marks "S1" res.2 = [].
Proof.
  intros db res.
  destruct (delete_then_register_again "2024-03-02" "S1" "Omar" 22 "10B" db)
    as (Hadd & _ & _ & Hmarks & _).
  - apply reachable_store_ok, session_reachable.
  - split; [exact Hadd|exact Hmarks].
Defined.

(** * Further properties of the reports *)

(** ** Dictionaries and grouping *)

Lemma foldl_snoc {A B} (f : A → B → A) a l x :
  foldl f a (l ++ [x]) = f (foldl f a l) x.
Proof. revert a. induction l as [|y l IH]; intros a; simpl; [done|]. apply IH. Qed.

Lemma foldl_ext_eq {A B} (f g : A → B → A) a l :
  (∀ a x, f a x = g a x) → foldl f a l = foldl g a l.
Proof.
  intros Hfg. revert a. induction l as [|y l IH]; intros a; simpl; [done|].
  by rewrite Hfg, IH.
Qed.

Lemma dict_contains_spec {V} k (d : dict V) :
  dict_contains k d = true ↔ k ∈ d.*1.
Proof. unfold dict_contains. by rewrite bool_decide_eq_true. Qed.

Lemma dict_modify_keys {V} k (f : V → V) (d : dict V) :
  (dict_modify k f d).*1 = d.*1.
Proof.
  induction d as [|[k' v] d IH]; [done|]. cbn [dict_modify].
  case_decide; rewrite !fmap_cons; [done|]. by rewrite IH.
Qed.

Lemma elem_of_dict_modify {V} k (f : V → V) (d : dict V) k' v' :
  NoDup d.*1 →
  (k', v') ∈ dict_modify k f d ↔
  (k' ≠ k ∧ (k', v') ∈ d) ∨ (k' = k ∧ ∃ v, (k, v) ∈ d ∧ v' = f v).
Proof.
  induction d as [|[k0 v0] d IH]; simpl; intros Hnd.
  - split; [by intros ?%elem_of_nil|].
    intros [[_ H]|(_ & v & H & _)]; by apply elem_of_nil in H.
  - apply NoDup_cons in Hnd as [Hk0 Hnd]. case_decide as Hk; simpl.
    + subst k0. rewrite !elem_of_cons. setoid_rewrite elem_of_cons. split.
      * intros [Heq|Hin].
        -- injection Heq as -> ->. right. split; [done|]. exists v0.
           split; [by left|done].
        -- destruct (decide (k' = k)) as [->|Hne].
           ++ destruct Hk0. by apply (list_elem_of_fmap_2 fst) in Hin.
           ++ left. split; [done|]. by right.
      * intros [[Hne [Heq|Hin]]|(-> & v & [Heq|Hin] & ->)].
        -- congruence.
        -- by right.
        -- injection Heq as ->. by left.
        -- destruct Hk0. by apply (list_elem_of_fmap_2 fst) in Hin.
    + rewrite !elem_of_cons, (IH Hnd). setoid_rewrite elem_of_cons. split.
      * intros [Heq|[[Hne Hin]|(-> & v & Hin & ->)]].
        -- injection Heq as -> ->. left. split; [done|]. by left.
        -- left. split; [done|]. by right.
        -- right. split; [done|]. exists v. split; [by right|done].
      * intros [[Hne [Heq|Hin]]|(-> & v & [Heq|Hin] & ->)].
        -- by left.
        -- right. left. done.
        -- congruence.
        -- right. right. split; [done|]. by exists v.
Qed.

Section grouping.
Context {Row V : Type} (key : Row → string) (init : Row → V)
        (upd : Row → V → V).

(** One round of a grouping loop: the key gets its initial value when it is
    met for the first time, then the row is added to the value of its key. *)
Let group_step (data : dict V) (row : Row) : dict V :=
  dict_modify (key row) (upd row)
    (if dict_contains (key row) data then data
     else dict_new (key row) (init row) data).

Lemma group_step_keys data row :
  (group_step data row).*1 =
  if decide (key row ∈ data.*1) then data.*1 else data.*1 ++ [key row].
Proof.
  unfold group_step. rewrite dict_modify_keys.
  destruct (dict_contains (key row) data) eqn:E.
  - apply dict_contains_spec in E. by rewrite decide_True.
  - rewrite decide_False.
    + unfold dict_new. by rewrite fmap_app.
    + intros Hin. apply dict_contains_spec in Hin. congruence.
Qed.

Lemma group_step_NoDup data row :
  NoDup data.*1 → NoDup (group_step data row).*1.
Proof.
  intros Hnd. rewrite group_step_keys. case_decide as Hk; [done|].
  apply NoDup_app. split; [done|]. split; [|apply NoDup_singleton].
  by intros k Hin ->%list_elem_of_singleton.
Qed.

Lemma elem_of_group_step data row k v :
  NoDup data.*1 →
  (k, v) ∈ group_step data row ↔
  (k ≠ key row ∧ (k, v) ∈ data) ∨
  (k = key row ∧ ((∃ v0, (k, v0) ∈ data ∧ v = upd row v0) ∨
                  ((k ∉ data.*1) ∧ v = upd row (init row)))).
Proof.
  intros Hnd. unfold group_step.
  destruct (dict_contains (key row) data) eqn:E.
  - apply dict_contains_spec in E. rewrite elem_of_dict_modify by done.
    split.
    + intros [?|(-> & v0 & ? & ->)]; [by left|].
      right. split; [done|]. left. by exists v0.
    + intros [?|(-> & [(v0 & ? & ->)|[Hn _]])]; [by left| |done].
      right. split; [done|]. by exists v0.
  - assert (key row ∉ data.*1) as Hk.
    { intros Hin. apply dict_contains_spec in Hin. congruence. }
    rewrite elem_of_dict_modify.
    2:{ unfold dict_new. rewrite fmap_app. apply NoDup_app.
        split; [done|]. split; [|apply NoDup_singleton].
        by intros k' Hin ->%list_elem_of_singleton. }
    unfold dict_new. setoid_rewrite elem_of_app.
    setoid_rewrite list_elem_of_singleton. split.
    + intros [[Hne [Hin|Heq]]|(-> & v0 & [Hin|Heq] & ->)].
      * by left.
      * congruence.
      * destruct Hk. by apply (list_elem_of_fmap_2 fst) in Hin.
      * injection Heq as <-. right. split; [done|]. by right.
    + intros [[Hne Hin]|(-> & [(v0 & Hin & ->)|[_ ->]])].
      * left. split; [done|]. by left.
      * destruct Hk. by apply (list_elem_of_fmap_2 fst) in Hin.
      * right. split; [done|]. exists (init row). split; [by right|done].
Qed.

(** What a grouping loop computes: the keys are those of the rows, each
    once; the value of a key is built from the rows with that key, in their
    order, starting from the initial value of the first of them. *)
Lemma group_rows_spec (rows : list Row) :
  let data := foldl group_step [] rows in
  NoDup data.*1 ∧
  (∀ k, k ∈ data.*1 ↔ k ∈ key <$> rows) ∧
  (∀ k v, (k, v) ∈ data →
     ∃ row0 rest,
       filter (λ row, key row = k) rows = row0 :: rest ∧
       v = foldl (λ v row, upd row v) (init row0) (row0 :: rest)).
Proof.
  simpl. induction rows as [|row rows IH] using rev_ind.
  - simpl. split; [constructor|]. split; [done|].
    by intros k v ?%elem_of_nil.
  - destruct IH as (Hnd & Hkeys & Hvals). rewrite foldl_snoc.
    set (data := foldl group_step [] rows) in *.
    split; [by apply group_step_NoDup|]. split.
    + intros k. rewrite group_step_keys, fmap_app, elem_of_app.
      simpl. rewrite list_elem_of_singleton, <- Hkeys.
      case_decide as Hk.
      * split; [by left|]. intros [?| ->]; done.
      * rewrite elem_of_app, list_elem_of_singleton. done.
    + intros k v Hin. apply elem_of_group_step in Hin; [|done].
      rewrite filter_app, (filter_cons _ row), filter_nil.
      destruct Hin as [[Hne Hin]|(-> & [(v0 & Hin & ->)|[Hnew ->]])].
      * rewrite decide_False by done. rewrite app_nil_r. by apply Hvals.
      * rewrite decide_True by done.
        destruct (Hvals _ _ Hin) as (row0 & rest & Hf & ->).
        exists row0, (rest ++ [row]). rewrite Hf. split; [done|].
        change (row0 :: rest ++ [row]) with ((row0 :: rest) ++ [row]).
        by rewrite foldl_snoc.
      * rewrite decide_True by done.
        rewrite filter_none.
        2:{ intros row' Hin' Heq. apply Hnew, Hkeys. rewrite <- Heq.
            by apply list_elem_of_fmap_2. }
        by exists row, [].
Qed.

End grouping.

Lemma foldl_student_info name marks subjects (rows : list JoinedRow) :
  foldl (λ info row,
           mkInfo (info_name info) (info_marks info ++ [row.2])
                  (info_subjects info ++ [row.1.2]))
        (mkInfo name marks subjects) rows =
  mkInfo name (marks ++ (snd <$> rows))
         (subjects ++ ((λ row : JoinedRow, row.1.2) <$> rows)).
Proof.
  revert marks subjects. induction rows as [|row rows IH]; intros; simpl.
  - by rewrite !app_nil_r.
  - rewrite IH. by rewrite <- !app_assoc.
Qed.

Lemma foldl_marks_list marks (rows : list JoinedRow) :
  foldl (λ marks_list row, marks_list ++ [row.2]) marks rows =
  marks ++ (snd <$> rows).
Proof.
  revert marks. induction rows as [|row rows IH]; intros; simpl.
  - by rewrite app_nil_r.
  - rewrite IH. by rewrite <- app_assoc.
Qed.

Lemma student_data_groups_rows_aux (all_marks : list JoinedRow) :
  let data := student_data all_marks in
  NoDup data.*1 ∧
  (∀ roll_no, roll_no ∈ data.*1 ↔
              roll_no ∈ (λ row : JoinedRow, row.1.1.1) <$> all_marks) ∧
  (∀ roll_no info, (roll_no, info) ∈ data →
     let rows := filter (λ row : JoinedRow, row.1.1.1 = roll_no) all_marks in
     rows ≠ [] ∧
     head ((λ row : JoinedRow, row.1.1.2) <$> rows) = Some (info_name info) ∧
     info_marks info = snd <$> rows ∧
     info_subjects info = (λ row : JoinedRow, row.1.2) <$> rows).
Proof.
  pose proof (group_rows_spec
    (λ row : JoinedRow, row.1.1.1)
    (λ row : JoinedRow, mkInfo row.1.1.2 [] [])
    (λ (row : JoinedRow) info,
       mkInfo (info_name info) (info_marks info ++ [row.2])
              (info_subjects info ++ [row.1.2])) all_marks) as Hspec.
  simpl in Hspec.
  assert (student_data all_marks = foldl (λ data (row : JoinedRow),
            dict_modify row.1.1.1
              (λ info, mkInfo (info_name info) (info_marks info ++ [row.2])
                              (info_subjects info ++ [row.1.2]))
              (if dict_contains row.1.1.1 data then data
               else dict_new row.1.1.1 (mkInfo row.1.1.2 [] []) data))
            [] all_marks) as ->.
  { unfold student_data. apply foldl_ext_eq. by intros data [[[??]?]?]. }
  destruct Hspec as (Hnd & Hkeys & Hvals). simpl.
  split; [done|]. split; [done|].
  intros roll_no info Hin.
  destruct (Hvals _ _ Hin) as (row0 & rest & Hrows & ->).
  rewrite Hrows. split; [done|].
  simpl foldl. rewrite foldl_student_info. simpl. done.
Qed.

(** X13: the grouping loop of [generate_analysis]. [data] has one key for
    each roll number among the joined rows and no other; under a key it
    holds the name of the first row with that roll number, and the marks
    and the subjects of all the rows with it, in the order of the rows, so
    no student has an empty list of marks. *)
Theorem student_data_groups_rows (all_marks : list JoinedRow) :
  let data := student_data all_marks in
  NoDup data.*1 ∧
  (∀ roll_no, roll_no ∈ data.*1 ↔
              roll_no ∈ (λ row : JoinedRow, row.1.1.1) <$> all_marks) ∧
  (∀ roll_no info, (roll_no, info) ∈ data →
     let rows := filter (λ row : JoinedRow, row.1.1.1 = roll_no) all_marks in
     rows ≠ [] ∧
     head ((λ row : JoinedRow, row.1.1.2) <$> rows) = Some (info_name info) ∧
     info_marks info = snd <$> rows ∧
     info_subjects info = (λ row : JoinedRow, row.1.2) <$> rows).
Proof. apply student_data_groups_rows_aux. Qed.

Lemma student_data_groups_rows_witness :
  let all_marks : list JoinedRow :=
    [("S1", "Asha", "Math", 95%Q); ("S1", "Asha", "Science", 85%Q);
     ("S2", "Ravi", "Math", 55%Q); ("S2", "Ravi", "Science", 45%Q)] in
  let info := mkInfo "Ravi" [55%Q; 45%Q] ["Math"; "Science"] in
  info_marks info =
    snd <$> filter (λ row : JoinedRow, row.1.1.1 = "S2") all_marks ∧
  info_subjects info =
    (λ row : JoinedRow, row.1.2) <$>
      filter (λ row : JoinedRow, row.1.1.1 = "S2") all_marks.
Proof.
  intros all_marks info.
  destruct (student_data_groups_rows all_marks) as (_ & _ & Hvals).
  destruct (Hvals "S2" info) as (_ & _ & Hmarks & Hsubjects).
  - vm_compute. right. left.
  - by split.
Defined.

Lemma marks_lists_group_rows_aux (all_marks : list JoinedRow) :
  let by_subject := subjects_data all_marks in
  let by_student := marks_by_student all_marks in
  NoDup by_subject.*1 ∧ NoDup by_student.*1 ∧
  (∀ subject, subject ∈ by_subject.*1 ↔
              subject ∈ (λ row : JoinedRow, row.1.2) <$> all_marks) ∧
  (∀ roll_no, roll_no ∈ by_student.*1 ↔
              roll_no ∈ (λ row : JoinedRow, row.1.1.1) <$> all_marks) ∧
  (∀ subject marks_list, (subject, marks_list) ∈ by_subject →
     marks_list ≠ [] ∧
     marks_list =
       snd <$> filter (λ row : JoinedRow, row.1.2 = subject) all_marks) ∧
  (∀ roll_no marks_list, (roll_no, marks_list) ∈ by_student →
     marks_list ≠ [] ∧
     marks_list =
       snd <$> filter (λ row : JoinedRow, row.1.1.1 = roll_no) all_marks).
Proof.
  pose proof (group_rows_spec
    (λ row : JoinedRow, row.1.2) (λ _, @nil Q)
    (λ (row : JoinedRow) marks_list, marks_list ++ [row.2]) all_marks)
    as Hsubject.
  pose proof (group_rows_spec
    (λ row : JoinedRow, row.1.1.1) (λ _, @nil Q)
    (λ (row : JoinedRow) marks_list, marks_list ++ [row.2]) all_marks)
    as Hstudent.
  simpl in Hsubject, Hstudent.
  assert (subjects_data all_marks = foldl (λ data (row : JoinedRow),
            dict_modify row.1.2 (λ marks_list, marks_list ++ [row.2])
              (if dict_contains row.1.2 data then data
               else dict_new row.1.2 [] data)) [] all_marks) as ->.
  { unfold subjects_data. apply foldl_ext_eq. by intros data [[[??]?]?]. }
  assert (marks_by_student all_marks = foldl (λ data (row : JoinedRow),
            dict_modify row.1.1.1 (λ marks_list, marks_list ++ [row.2])
              (if dict_contains row.1.1.1 data then data
               else dict_new row.1.1.1 [] data)) [] all_marks) as ->.
  { unfold marks_by_student. apply foldl_ext_eq. by intros data [[[??]?]?]. }
  destruct Hsubject as (Hnd1 & Hkeys1 & Hvals1).
  destruct Hstudent as (Hnd2 & Hkeys2 & Hvals2). simpl.
  do 4 (split; [done|]). split.
  - intros subject marks_list Hin.
    destruct (Hvals1 _ _ Hin) as (row0 & rest & Hrows & ->).
    rewrite Hrows. simpl. by rewrite foldl_marks_list.
  - intros roll_no marks_list Hin.
    destruct (Hvals2 _ _ Hin) as (row0 & rest & Hrows & ->).
    rewrite Hrows. simpl. by rewrite foldl_marks_list.
Qed.

(** X14: the other two grouping loops. [subjects_data] has one key for each
    subject among the joined rows, [marks_by_student] (the loop of
    [plot_grade_distribution]) one for each roll number, and under a key
    the marks of all the rows with it, in their order: never an empty
    list. *)
Theorem marks_lists_group_rows (all_marks : list JoinedRow) :
  let by_subject := subjects_data all_marks in
  let by_student := marks_by_student all_marks in
  NoDup by_subject.*1 ∧ NoDup by_student.*1 ∧
  (∀ subject, subject ∈ by_subject.*1 ↔
              subject ∈ (λ row : JoinedRow, row.1.2) <$> all_marks) ∧
  (∀ roll_no, roll_no ∈ by_student.*1 ↔
              roll_no ∈ (λ row : JoinedRow, row.1.1.1) <$> all_marks) ∧
  (∀ subject marks_list, (subject, marks_list) ∈ by_subject →
     marks_list ≠ [] ∧
     marks_list =
       snd <$> filter (λ row : JoinedRow, row.1.2 = subject) all_marks) ∧
  (∀ roll_no marks_list, (roll_no, marks_list) ∈ by_student →
     marks_list ≠ [] ∧
     marks_list =
       snd <$> filter (λ row : JoinedRow, row.1.1.1 = roll_no) all_marks).
Proof. apply marks_lists_group_rows_aux. Qed.

Lemma marks_lists_group_rows_witness :
  let all_marks : list JoinedRow :=
    [("S1", "Asha", "Math", 95%Q); ("S1", "Asha", "Science", 85%Q);
     ("S2", "Ravi", "Math", 55%Q); ("S2", "Ravi", "Science", 45%Q)] in
  [95%Q; 55%Q] =
    snd <$> filter (λ row : JoinedRow, row.1.2 = "Math") all_marks.
Proof.
  intros all_marks.
  destruct (marks_lists_group_rows all_marks) as (_ & _ & _ & _ & Hvals & _).
  destruct (Hvals "Math" [95%Q; 55%Q]) as (_ & Hmarks).
  - vm_compute. left.
  - exact Hmarks.
Defined.

(** ** The report *)

Lemma sorted_items_strict {V} (d : dict V) :
  NoDup d.*1 →
  StronglySorted (λ kv1 kv2 : string * V,
                    String.le kv1.1 kv2.1 ∧ kv1.1 ≠ kv2.1) (sorted_items d).
Proof.
  intros Hnd. unfold sorted_items.
  apply (StronglySorted_NoDup_strict by_key fst).
  - apply StronglySorted_order_by; apply _.
  - by rewrite order_by_Permutation.
Qed.

Lemma elem_of_sorted_items {V} (d : dict V) kv : kv ∈ sorted_items d ↔ kv ∈ d.
Proof. apply elem_of_order_by. Qed.

(** X15: the student-wise table of the report has one line for each roll
    number among the joined rows, in strictly ascending order of roll
    number; a line carries the sum and the mean of all the marks of its
    roll number, and the grade of that mean. [total_students] is the number
    of these lines. *)
Theorem student_wise_lines (all_marks : list JoinedRow) :
  let lines := student_wise_performance all_marks in
  StronglySorted (λ l1 l2, String.le (line_roll_no l1) (line_roll_no l2) ∧
                           line_roll_no l1 ≠ line_roll_no l2) lines ∧
  length lines = total_students (overall_statistics all_marks) ∧
  (∀ roll_no, roll_no ∈ line_roll_no <$> lines ↔
              roll_no ∈ (λ row : JoinedRow, row.1.1.1) <$> all_marks) ∧
  (∀ line, line ∈ lines →
     let marks :=
       snd <$> filter (λ row : JoinedRow, row.1.1.1 = line_roll_no line)
                      all_marks in
     marks ≠ [] ∧
     line_total line = np_sum marks ∧
     line_avg line = np_mean marks ∧
     line_grade line = calculate_grade (np_mean marks)).
Proof.
  destruct (student_data_groups_rows_aux all_marks) as (Hnd & Hkeys & Hvals).
  simpl. unfold student_wise_performance.
  split; [|split; [|split]].
  - apply (StronglySorted_fmap _
      (λ kv1 kv2 : string * StudentInfo,
         String.le kv1.1 kv2.1 ∧ kv1.1 ≠ kv2.1)).
    + intros [k1 i1] [k2 i2]. simpl. tauto.
    + by apply sorted_items_strict.
  - rewrite length_fmap. unfold sorted_items. rewrite length_order_by.
    reflexivity.
  - intros roll_no. rewrite <- Hkeys, <- list_fmap_compose.
    rewrite !list_elem_of_fmap. split.
    + intros ([k info] & -> & Hin).
      apply (proj1 (elem_of_sorted_items _ _)) in Hin.
      exists (k, info). split; [reflexivity|done].
    + intros ([k info] & -> & Hin). exists (k, info).
      split; [reflexivity|]. by apply elem_of_sorted_items.
  - intros line ([k info] & -> & Hin)%list_elem_of_fmap.
    apply (proj1 (elem_of_sorted_items _ _)) in Hin.
    simpl. destruct (Hvals _ _ Hin) as (Hne & _ & Hmarks & _).
    rewrite <- Hmarks. split; [|done].
    rewrite Hmarks. intros Hnil. by apply fmap_nil_inv in Hnil.
Qed.

Lemma student_wise_lines_witness :
  let all_marks : list JoinedRow :=
    [("S1", "Asha", "Math", 95%Q); ("S1", "Asha", "Science", 85%Q);
     ("S2", "Ravi", "Math", 55%Q); ("S2", "Ravi", "Science", 45%Q)] in
  let line :=
    mkStudentLine "S1" "Asha" (np_mean [95%Q; 85%Q]) (np_sum [95%Q; 85%Q])
                  (calculate_grade (np_mean [95%Q; 85%Q])) in
  line_total line =
    np_sum (snd <$> filter (λ row : JoinedRow, row.1.1.1 = "S1") all_marks).
Proof.
  intros all_marks line.
  destruct (student_wise_lines all_marks) as (_ & _ & _ & Hlines).
  destruct (Hlines line) as (_ & Htotal & _).
  - vm_compute. left.
  - exact Htotal.
Defined.

(** X16: the subject-wise table of the report has one line for each subject
    among the joined rows, in strictly ascending order of subject; a line
    carries the mean, the variance, the minimum and the maximum of all the
    marks of its subject, with minimum <= mean <= maximum and a variance
    that is not negative. *)
Theorem subject_wise_lines (all_marks : list JoinedRow) :
  let lines := subject_wise_statistics all_marks in
  StronglySorted (λ l1 l2, String.le (line_subject l1) (line_subject l2) ∧
                           line_subject l1 ≠ line_subject l2) lines ∧
  (∀ subject, subject ∈ line_subject <$> lines ↔
              subject ∈ (λ row : JoinedRow, row.1.2) <$> all_marks) ∧
  (∀ line, line ∈ lines →
     let marks :=
       snd <$> filter (λ row : JoinedRow, row.1.2 = line_subject line)
                      all_marks in
     marks ≠ [] ∧
     line_mean line = np_mean marks ∧ line_variance line = np_var marks ∧
     line_min line = np_min marks ∧ line_max line = np_max marks ∧
     (line_min line <= line_mean line)%Q ∧
     (line_mean line <= line_max line)%Q ∧
     (0 <= line_variance line)%Q).
Proof.
  destruct (marks_lists_group_rows_aux all_marks)
    as (Hnd & _ & Hkeys & _ & Hvals & _).
  simpl. unfold subject_wise_statistics. split; [|split].
  - apply (StronglySorted_fmap _
      (λ kv1 kv2 : string * list Q, String.le kv1.1 kv2.1 ∧ kv1.1 ≠ kv2.1)).
    + intros [k1 i1] [k2 i2]. simpl. tauto.
    + by apply sorted_items_strict.
  - intros subject. rewrite <- Hkeys, <- list_fmap_compose.
    rewrite !list_elem_of_fmap. split.
    + intros ([k marks] & -> & Hin).
      apply (proj1 (elem_of_sorted_items _ _)) in Hin.
      exists (k, marks). split; [reflexivity|done].
    + intros ([k marks] & -> & Hin). exists (k, marks).
      split; [reflexivity|]. by apply elem_of_sorted_items.
  - intros line ([k marks] & -> & Hin)%list_elem_of_fmap.
    apply (proj1 (elem_of_sorted_items _ _)) in Hin.
    simpl. destruct (Hvals _ _ Hin) as (Hne & Hmarks).
    rewrite <- Hmarks. do 5 (split; [done|]).
    split; [|split].
    + apply np_mean_lower; [done|]. apply np_min_le.
    + apply np_mean_upper; [done|]. apply np_max_ge.
    + by apply np_var_nonneg.
Qed.

Lemma subject_wise_lines_witness :
  let all_marks : list JoinedRow :=
    [("S1", "Asha", "Math", 95%Q); ("S1", "Asha", "Science", 85%Q);
     ("S2", "Ravi", "Math", 55%Q); ("S2", "Ravi", "Science", 45%Q)] in
  let line :=
    mkSubjectLine "Math" (np_mean [95%Q; 55%Q]) (np_var [95%Q; 55%Q])
                  (np_min [95%Q; 55%Q]) (np_max [95%Q; 55%Q]) in
  (line_min line <= line_mean line)%Q ∧ (line_mean line <= line_max line)%Q.
Proof.
  intros all_marks line.
  destruct (subject_wise_lines all_marks) as (_ & _ & Hlines).
  destruct (Hlines line) as (_ & _ & _ & _ & _ & Hlo & Hhi & _).
  - vm_compute. left.
  - by split.
Defined.

(** ** The grade distribution *)

Lemma calculate_grade_range avg :
  calculate_grade avg ∈ ["A+"; "A"; "B"; "C"; "D"; "F"].
Proof.
  unfold calculate_grade.
  repeat (case_match; [set_solver|]). set_solver.
Qed.

Lemma sum_list_dict_modify_S k (d : dict nat) :
  k ∈ d.*1 → sum_list (dict_modify k S d).*2 = S (sum_list d.*2).
Proof.
  induction d as [|[k' v] d IH]; intros Hin; [by apply elem_of_nil in Hin|].
  cbn [dict_modify]. case_decide as Hk.
  - rewrite !fmap_cons. simpl. done.
  - rewrite !fmap_cons. simpl. rewrite fmap_cons in Hin.
    apply elem_of_cons in Hin as [Heq|Hin]; [simpl in Heq; congruence|].
    rewrite IH by done. lia.
Qed.

Lemma sum_list_filter_pos (d : list (string * nat)) :
  sum_list (filter (λ kv, 0 < kv.2) d).*2 = sum_list d.*2.
Proof.
  induction d as [|[k v] d IH]; [done|].
  rewrite filter_cons. case_decide as Hv; simpl in Hv.
  - rewrite !fmap_cons. simpl. by rewrite IH.
  - rewrite fmap_cons. simpl. rewrite IH. lia.
Qed.

(** The counting loop of [plot_grade_distribution], for any list of
    students' marks. *)
Lemma grade_counting_loop (data : list (string * list Q)) :
  let grades :=
    foldl (λ (grades : dict nat) (item : string * list Q),
             dict_modify (calculate_grade (np_mean item.2)) S grades)
          [("A+", 0); ("A", 0); ("B", 0); ("C", 0); ("D", 0); ("F", 0)] data in
  grades.*1 = ["A+"; "A"; "B"; "C"; "D"; "F"] ∧
  sum_list grades.*2 = length data ∧
  (∀ grade count, (grade, count) ∈ grades →
     count = length (filter (λ item : string * list Q,
                               calculate_grade (np_mean item.2) = grade) data)).
Proof.
  simpl. induction data as [|item data IH] using rev_ind.
  - simpl. split; [done|]. split; [done|].
    intros grade count Hin. repeat (apply elem_of_cons in Hin as [Heq|Hin];
      [by injection Heq as _ ->|]). by apply elem_of_nil in Hin.
  - destruct IH as (Hkeys & Hsum & Hcount). rewrite foldl_snoc.
    set (grades := foldl _ _ data) in *.
    split; [by rewrite dict_modify_keys|]. split.
    + rewrite sum_list_dict_modify_S, Hsum, length_app; [simpl; lia|].
      rewrite Hkeys. apply calculate_grade_range.
    + intros grade count Hin.
      apply elem_of_dict_modify in Hin.
      2:{ rewrite Hkeys. apply (bool_decide_unpack _). by vm_compute. }
      rewrite filter_app, length_app, (filter_cons _ item), filter_nil.
      destruct Hin as [[Hne Hin]|(-> & c0 & Hin & ->)].
      * rewrite decide_False by done. simpl.
        rewrite (Hcount _ _ Hin). lia.
      * rewrite decide_True by done. simpl.
        rewrite (Hcount _ _ Hin). lia.
Qed.

(** X17: the grade distribution counts every student once. The counts are
    kept under the six grades in the order A+, A, B, C, D, F; the count of a
    grade is the number of students whose mean has that grade; the pie
    chart gets the grades with at least one student and their counts, in
    that order, and its sizes add up to the number of students. *)
Theorem grade_distribution_counts_students (all_marks : list JoinedRow) :
  let data := marks_by_student all_marks in
  let grades := grade_counts all_marks in
  let chart := plot_grade_distribution all_marks in
  grades.*1 = ["A+"; "A"; "B"; "C"; "D"; "F"] ∧
  (∀ grade count, (grade, count) ∈ grades →
     count = length (filter (λ item : string * list Q,
                               calculate_grade (np_mean item.2) = grade) data)) ∧
  chart.1 = (filter (λ kv, 0 < kv.2) grades).*1 ∧
  chart.2 = (filter (λ kv, 0 < kv.2) grades).*2 ∧
  Forall (λ size, 0 < size) chart.2 ∧
  sum_list chart.2 = length data.
Proof.
  pose proof (grade_counting_loop (marks_by_student all_marks)) as Hloop.
  simpl in Hloop.
  assert (grade_counts all_marks = foldl
            (λ (grades : dict nat) (item : string * list Q),
               dict_modify (calculate_grade (np_mean item.2)) S grades)
            [("A+", 0); ("A", 0); ("B", 0); ("C", 0); ("D", 0); ("F", 0)]
            (marks_by_student all_marks)) as Hgrades.
  { unfold grade_counts. apply foldl_ext_eq. by intros grades [??]. }
  simpl. unfold plot_grade_distribution. simpl.
  rewrite (filter_fmap_comm snd (λ v, 0 < v)).
  rewrite Hgrades. destruct Hloop as (Hkeys & Hsum & Hcount).
  split; [done|]. split; [done|]. split; [done|]. split; [done|]. split.
  - apply Forall_fmap, Forall_forall.
    by intros kv [Hpos _]%list_elem_of_filter.
  - by rewrite sum_list_filter_pos.
Qed.

Lemma grade_distribution_counts_students_witness :
  let all_marks : list JoinedRow :=
    [("S1", "Asha", "Math", 95%Q); ("S1", "Asha", "Science", 85%Q);
     ("S2", "Ravi", "Math", 55%Q); ("S2", "Ravi", "Science", 45%Q)] in
  1 = length (filter (λ item : string * list Q,
                        calculate_grade (np_mean item.2) = "D")
                     (marks_by_student all_marks)).
Proof.
  intros all_marks.
  destruct (grade_distribution_counts_students all_marks) as (_ & Hcount & _).
  apply (Hcount "D" 1). vm_compute. do 4 right. left.
Defined.

(** ** The statistics stay within the range of the marks *)

Lemma getitem_elem_of a i :
  (0 ≤ i < Z.of_nat (length a))%Z → getitem a i ∈ a.
Proof.
  intros Hi. rewrite getitem_nonneg by lia.
  apply list_elem_of_In, nth_In. lia.
Qed.

Lemma foldl_Qmin_lower lo acc a :
  (lo <= acc)%Q → Forall (λ x, lo <= x)%Q a → (lo <= foldl Qmin acc a)%Q.
Proof.
  intros Hacc Ha. revert acc Hacc.
  induction Ha as [|x a Hx Ha IH]; intros acc Hacc; simpl; [done|].
  apply IH. by apply Q.min_glb.
Qed.

Lemma foldl_Qmax_upper hi acc a :
  (acc <= hi)%Q → Forall (λ x, x <= hi)%Q a → (foldl Qmax acc a <= hi)%Q.
Proof.
  intros Hacc Ha. revert acc Hacc.
  induction Ha as [|x a Hx Ha IH]; intros acc Hacc; simpl; [done|].
  apply IH. by apply Q.max_lub.
Qed.

Lemma range_lower (lo hi : Q) a :
  Forall (λ x, lo <= x ∧ x <= hi)%Q a → Forall (λ x, lo <= x)%Q a.
Proof. intros H. eapply Forall_impl; [exact H|]. by intros x [??]. Qed.

Lemma range_upper (lo hi : Q) a :
  Forall (λ x, lo <= x ∧ x <= hi)%Q a → Forall (λ x, x <= hi)%Q a.
Proof. intros H. eapply Forall_impl; [exact H|]. by intros x [??]. Qed.

Lemma np_sort_within_range (lo hi : Q) a x :
  Forall (λ x, lo <= x ∧ x <= hi)%Q a →
  x ∈ np_sort a → (lo <= x ∧ x <= hi)%Q.
Proof.
  intros Hrange Hx. apply elem_of_order_by in Hx.
  rewrite Forall_forall in Hrange. by apply Hrange.
Qed.

Lemma np_min_within_range (lo hi : Q) a :
  a ≠ [] → Forall (λ x, lo <= x ∧ x <= hi)%Q a →
  (lo <= np_min a ∧ np_min a <= hi)%Q.
Proof.
  intros Hne Hrange.
  pose proof (range_lower _ _ _ Hrange) as Hlo.
  destruct a as [|x a']; [done|]. simpl.
  apply Forall_cons in Hlo as [Hx Hlo].
  apply Forall_cons in Hrange as [[_ Hx'] _].
  split; [by apply foldl_Qmin_lower|].
  destruct (foldl_Qmin_le x a') as [Hle _]. by eapply Qle_trans.
Qed.

Lemma np_max_within_range (lo hi : Q) a :
  a ≠ [] → Forall (λ x, lo <= x ∧ x <= hi)%Q a →
  (lo <= np_max a ∧ np_max a <= hi)%Q.
Proof.
  intros Hne Hrange.
  pose proof (range_upper _ _ _ Hrange) as Hhi.
  destruct a as [|x a']; [done|]. simpl.
  apply Forall_cons in Hhi as [Hx' Hhi].
  apply Forall_cons in Hrange as [[Hx _] _].
  split; [|by apply foldl_Qmax_upper].
  destruct (foldl_Qmax_ge x a') as [Hle _]. by eapply Qle_trans.
Qed.

Lemma np_mean_within_range (lo hi : Q) a :
  a ≠ [] → Forall (λ x, lo <= x ∧ x <= hi)%Q a →
  (lo <= np_mean a ∧ np_mean a <= hi)%Q.
Proof.
  intros Hne Hrange.
  split; [apply np_mean_lower|apply np_mean_upper];
    eauto using range_lower, range_upper.
Qed.

Lemma np_median_within_range (lo hi : Q) a :
  a ≠ [] → Forall (λ x, lo <= x ∧ x <= hi)%Q a →
  (lo <= np_median a ∧ np_median a <= hi)%Q.
Proof.
  intros Hne Hrange.
  unfold np_median. pose proof (length_np_sort a) as Hlen.
  assert (0 < Z.of_nat (length a))%Z as Hpos by (destruct a; [done|simpl; lia]).
  destruct (Z.even (Z.of_nat (length a))) eqn:Heven.
  - assert (2 ≤ Z.of_nat (length a))%Z as H2.
    { destruct (decide (Z.of_nat (length a) = 1%Z)) as [E|]; [|lia].
      rewrite E in Heven. done. }
    destruct (np_sort_within_range lo hi a
                (getitem (np_sort a) (Z.of_nat (length a) / 2 - 1))) as [??];
      [done| |].
    { apply getitem_elem_of. rewrite Hlen.
      pose proof (Z.div_lt (Z.of_nat (length a)) 2).
      assert (1 ≤ Z.of_nat (length a) / 2)%Z
        by (apply Z.div_le_lower_bound; lia). lia. }
    destruct (np_sort_within_range lo hi a
                (getitem (np_sort a) (Z.of_nat (length a) / 2))) as [??];
      [done| |].
    { apply getitem_elem_of. rewrite Hlen.
      pose proof (Z.div_pos (Z.of_nat (length a)) 2).
      pose proof (Z.div_lt (Z.of_nat (length a)) 2). lia. }
    split; [apply Qle_shift_div_l|apply Qle_shift_div_r]; lra.
  - apply (np_sort_within_range lo hi a); [done|].
    apply getitem_elem_of. rewrite Hlen.
    pose proof (Z.div_pos (Z.of_nat (length a)) 2).
    pose proof (Z.div_lt (Z.of_nat (length a)) 2). lia.
Qed.

Lemma np_percentile_within_range (lo hi : Q) a q :
  a ≠ [] → Forall (λ x, lo <= x ∧ x <= hi)%Q a →
  (0 <= q)%Q → (q <= 100)%Q →
  (lo <= np_percentile a q ∧ np_percentile a q <= hi)%Q.
Proof.
  intros Hne Hrange Hq0 Hq100. rewrite np_percentile_linear by done.
  unfold spec_percentile. fold (np_sort a). fold (np_size a).
  pose proof (length_np_sort a) as Hlen.
  pose proof (np_size_pos a Hne) as Hn.
  assert (1 <= np_size a)%Q as Hn1.
  { unfold np_size. rewrite <- (Zle_Qle 1). destruct a; [done|simpl; lia]. }
  assert (0 <= q / 100)%Q as Hp0 by (apply Qle_shift_div_l; lra).
  assert (q / 100 <= 1)%Q as Hp1 by (apply Qle_shift_div_r; lra).
  set (rank := (q / 100 * (np_size a - 1))%Q).
  assert (0 <= rank)%Q as Hr0 by (unfold rank; apply Qmult_le_0_compat; lra).
  assert (rank <= np_size a - 1)%Q as Hr1.
  { unfold rank. rewrite <- (Qmult_1_l (np_size a - 1)) at 2.
    apply Qmult_le_compat_r; lra. }
  clearbody rank.
  pose proof (Qfloor_le rank) as Hfl. pose proof (Qlt_floor rank) as Hfl'.
  assert (0 ≤ Qfloor rank)%Z as Hf0.
  { change 0%Z with (Qfloor 0). by apply Qfloor_resp_le. }
  assert (Qfloor rank ≤ Z.of_nat (length a) - 1)%Z as Hf1.
  { rewrite <- (Qfloor_Z (Z.of_nat (length a) - 1)).
    apply Qfloor_resp_le. rewrite <- np_size_pred. done. }
  set (k := Z.to_nat (Qfloor rank)).
  assert (k < length (np_sort a))%nat as Hk by (rewrite Hlen; lia).
  destruct (np_sort_within_range lo hi a (nth k (np_sort a) 0%Q))
    as [Hl1 Hl2]; [done| |].
  { apply list_elem_of_In, nth_In. done. }
  set (lower := nth k (np_sort a) 0%Q) in *.
  assert (lo <= nth (S k) (np_sort a) lower ∧
          nth (S k) (np_sort a) lower <= hi)%Q as [Hu1 Hu2].
  { destruct (decide (S k < length (np_sort a))%nat) as [Hlt|Hge].
    - apply (np_sort_within_range lo hi a); [done|].
      apply list_elem_of_In, nth_In. done.
    - rewrite nth_overflow by lia. done. }
  set (upper := nth (S k) (np_sort a) lower) in *.
  rewrite inject_Z_plus in Hfl'.
  set (f := inject_Z (Qfloor rank)) in *.
  change (inject_Z 1) with 1%Q in Hfl'.
  clearbody upper lower f. split; nra.
Qed.

(** X18: every number in the statistics of a non-empty list of marks lies
    within the range of the marks. If all the marks are between [lo] and
    [hi] (between 0 and 100 for marks that passed the form), then so are
    the minimum, the maximum, the mean, the median and every percentile
    from the 0th to the 100th, in exact arithmetic. *)
Theorem statistics_within_range (lo hi : Q) (a : list Q) (q : Q)
    (Hne : a ≠ []) (Hrange : Forall (λ x, lo <= x ∧ x <= hi)%Q a)
    (Hq0 : (0 <= q)%Q) (Hq100 : (q <= 100)%Q) :
  (lo <= np_min a ∧ np_min a <= hi)%Q ∧
  (lo <= np_max a ∧ np_max a <= hi)%Q ∧
  (lo <= np_mean a ∧ np_mean a <= hi)%Q ∧
  (lo <= np_median a ∧ np_median a <= hi)%Q ∧
  (lo <= np_percentile a q ∧ np_percentile a q <= hi)%Q.
Proof.
  split; [by apply np_min_within_range|].
  split; [by apply np_max_within_range|].
  split; [by apply np_mean_within_range|].
  split; [by apply np_median_within_range|].
  by apply np_percentile_within_range.
Qed.

Lemma statistics_within_range_witness :
  let a := [95; 85; 55; 45]%Q in
  (0 <= np_median a ∧ np_median a <= 100)%Q ∧
  (0 <= np_percentile a 25 ∧ np_percentile a 25 <= 100)%Q.
Proof.
  intros a.
  destruct (statistics_within_range 0 100 a 25) as (_ & _ & _ & Hmed & Hp);
    [discriminate| |discriminate|discriminate|by split].
  repeat constructor; discriminate.
Defined.

(** ** The quartiles are in order *)

Lemma StronglySorted_nth_le (s : list Q) i j d :
  StronglySorted Qle s → (i ≤ j)%nat → (j < length s)%nat →
  (nth i s d <= nth j s d)%Q.
Proof.
  intros Hs. revert i j. induction Hs as [|x s Hs IH Hx]; intros i j Hij Hj.
  - simpl in Hj. lia.
  - destruct i as [|i], j as [|j]; simpl in *; try lia.
    + apply Qle_refl.
    + rewrite Forall_forall in Hx. apply Hx, list_elem_of_In, nth_In. lia.
    + apply IH; lia.
Qed.

Lemma Qfloor_unique (x : Q) (z : Z) :
  (inject_Z z <= x)%Q → (x < inject_Z (z + 1))%Q → Qfloor x = z.
Proof.
  intros H1 H2.
  pose proof (Qfloor_le x) as H3. pose proof (Qlt_floor x) as H4.
  assert (z < Qfloor x + 1)%Z.
  { rewrite Zlt_Qlt. eapply Qle_lt_trans; done. }
  assert (Qfloor x < z + 1)%Z.
  { rewrite Zlt_Qlt. eapply Qle_lt_trans; done. }
  lia.
Qed.

(** The value at a fractional rank of a sorted list grows with the rank. *)
Lemma interpolation_mono (s : list Q) (h1 h2 : Q) :
  StronglySorted Qle s → (0 <= h1)%Q → (h1 <= h2)%Q →
  (h2 <= inject_Z (Z.of_nat (length s) - 1))%Q →
  (nth (Z.to_nat (Qfloor h1)) s 0 +
     (h1 - inject_Z (Qfloor h1)) *
     (nth (S (Z.to_nat (Qfloor h1))) s (nth (Z.to_nat (Qfloor h1)) s 0) -
      nth (Z.to_nat (Qfloor h1)) s 0) <=
   nth (Z.to_nat (Qfloor h2)) s 0 +
     (h2 - inject_Z (Qfloor h2)) *
     (nth (S (Z.to_nat (Qfloor h2))) s (nth (Z.to_nat (Qfloor h2)) s 0) -
      nth (Z.to_nat (Qfloor h2)) s 0))%Q.
Proof.
  intros Hs Hh1 Hh12 Hh2.
  pose proof (Qfloor_le h1) as Hf1. pose proof (Qlt_floor h1) as Hf1'.
  pose proof (Qfloor_le h2) as Hf2. pose proof (Qlt_floor h2) as Hf2'.
  assert (0 ≤ Qfloor h1)%Z as Hk1.
  { change 0%Z with (Qfloor 0). by apply Qfloor_resp_le. }
  assert (Qfloor h1 ≤ Qfloor h2)%Z as Hk12 by (by apply Qfloor_resp_le).
  assert (Qfloor h2 ≤ Z.of_nat (length s) - 1)%Z as Hk2.
  { rewrite <- (Qfloor_Z (Z.of_nat (length s) - 1)). by apply Qfloor_resp_le. }
  rewrite inject_Z_plus in Hf1', Hf2'.
  change (inject_Z 1) with 1%Q in Hf1', Hf2'.
  set (k1 := Z.to_nat (Qfloor h1)). set (k2 := Z.to_nat (Qfloor h2)).
  assert (k1 ≤ k2)%nat as Hk by lia.
  assert (k2 < length s)%nat as Hk2' by lia.
  assert (∀ k, (k < length s)%nat →
            (nth k s 0 <= nth (S k) s (nth k s 0))%Q) as Hup.
  { intros k Hk'. destruct (decide (S k < length s)%nat) as [Hlt|Hge].
    - rewrite (nth_indep s (nth k s 0%Q) 0%Q) by done.
      apply StronglySorted_nth_le; [done|lia|done].
    - rewrite (nth_overflow s (n:=S k)) by lia. apply Qle_refl. }
  pose proof (Hup k1 ltac:(lia)) as Hup1. pose proof (Hup k2 Hk2') as Hup2.
  destruct (decide (k1 = k2)) as [Heq|Hne].
  - assert (Qfloor h1 = Qfloor h2) as Hfeq by lia.
    rewrite <- Heq in *. rewrite <- Hfeq in *.
    set (lower := nth k1 s 0%Q) in *.
    set (upper := nth (S k1) s lower) in *.
    set (f := inject_Z (Qfloor h1)) in *. clearbody lower upper f. nra.
  - assert (nth (S k1) s (nth k1 s 0%Q) <= nth k2 s 0%Q)%Q as Hmid.
    { rewrite (nth_indep s (nth k1 s 0%Q) 0%Q) by lia.
      apply StronglySorted_nth_le; [done|lia|done]. }
    set (lower1 := nth k1 s 0%Q) in *.
    set (upper1 := nth (S k1) s lower1) in *.
    set (lower2 := nth k2 s 0%Q) in *.
    set (upper2 := nth (S k2) s lower2) in *.
    set (f1 := inject_Z (Qfloor h1)) in *.
    set (f2 := inject_Z (Qfloor h2)) in *.
    clearbody lower1 upper1 lower2 upper2 f1 f2. nra.
Qed.

Lemma spec_percentile_mono a p1 p2 :
  a ≠ [] → (0 <= p1)%Q → (p1 <= p2)%Q → (p2 <= 100)%Q →
  (spec_percentile a p1 <= spec_percentile a p2)%Q.
Proof.
  intros Hne H0 H12 H100. unfold spec_percentile.
  pose proof (np_size_pos a Hne) as Hn. fold (np_size a).
  assert (1 <= np_size a)%Q as Hn1.
  { unfold np_size. rewrite <- (Zle_Qle 1). destruct a; [done|simpl; lia]. }
  assert (0 <= p1 / 100)%Q by (apply Qle_shift_div_l; lra).
  assert (p1 / 100 <= p2 / 100)%Q.
  { unfold Qdiv. apply Qmult_le_compat_r; [done|discriminate]. }
  assert (p2 / 100 <= 1)%Q by (apply Qle_shift_div_r; lra).
  apply interpolation_mono.
  - apply StronglySorted_order_by; apply _.
  - apply Qmult_le_0_compat; lra.
  - apply Qmult_le_compat_r; lra.
  - rewrite length_order_by, <- np_size_pred.
    rewrite <- (Qmult_1_l (np_size a - 1)) at 2.
    apply Qmult_le_compat_r; lra.
Qed.

Lemma np_median_is_percentile_50 a :
  a ≠ [] → (np_median a == spec_percentile a 50)%Q.
Proof.
  intros Hne. unfold np_median, spec_percentile.
  fold (np_sort a). fold (np_size a).
  pose proof (length_np_sort a) as Hlen.
  assert (0 < Z.of_nat (length a))%Z as Hpos by (destruct a; [done|simpl; lia]).
  set (n := Z.of_nat (length a)) in *.
  assert (np_size a == inject_Z n)%Q as Hsize by reflexivity.
  set (rank := (50 / 100 * (np_size a - 1))%Q).
  assert (rank == (inject_Z n - 1) / 2)%Q as Hrank.
  { unfold rank. rewrite Hsize. field. }
  clearbody rank.
  destruct (Z.even n) eqn:Heven.
  - apply Z.even_spec in Heven as [m Hm].
    assert (1 ≤ m)%Z by lia.
    assert (rank == inject_Z (m - 1) + (1 # 2))%Q as Hrank'.
    { rewrite Hrank, Hm. unfold Z.sub.
      rewrite inject_Z_mult, inject_Z_plus, inject_Z_opp.
      change (inject_Z 2) with 2%Q. change (inject_Z 1) with 1%Q. field. }
    assert (Qfloor rank = (m - 1)%Z) as Hfl.
    { apply Qfloor_unique.
      - rewrite Hrank'. lra.
      - rewrite Hrank', inject_Z_plus. change (inject_Z 1) with 1%Q. lra. }
    rewrite Hfl.
    replace (n / 2)%Z with m by (rewrite Hm, Z.mul_comm, Z.div_mul; lia).
    rewrite !getitem_nonneg by lia.
    replace (Z.to_nat m) with (S (Z.to_nat (m - 1))) by lia.
    rewrite (nth_indep (np_sort a) (nth (Z.to_nat (m - 1)) (np_sort a) 0%Q) 0%Q)
      by (rewrite Hlen; lia).
    rewrite Hrank'. field.
  - rewrite <- Z.negb_odd in Heven. apply negb_false_iff in Heven.
    apply Z.odd_spec in Heven as [m Hm].
    assert (0 ≤ m)%Z by lia.
    assert (rank == inject_Z m)%Q as Hrank'.
    { rewrite Hrank, Hm.
      rewrite inject_Z_plus, inject_Z_mult.
      change (inject_Z 2) with 2%Q. change (inject_Z 1) with 1%Q. field. }
    assert (Qfloor rank = m) as Hfl by (rewrite Hrank'; apply Qfloor_Z).
    rewrite Hfl.
    replace (n / 2)%Z with m.
    2:{ rewrite Hm, Z.mul_comm, Z.div_add_l by lia.
        change (1 / 2)%Z with 0%Z. lia. }
    rewrite getitem_nonneg by lia. rewrite Hrank'. ring.
Qed.

(** X19: the quartiles of the report are in order. For a non-empty list of
    marks, in exact arithmetic, the 25th percentile is at most the median
    and the median at most the 75th percentile; the median is the 50th
    percentile of numpy's linear method. *)
Theorem quartiles_in_order (all_marks : list JoinedRow)
    (Hne : all_marks ≠ []) :
  let stats := overall_statistics all_marks in
  (overall_percentile_25 stats <= overall_median stats)%Q ∧
  (overall_median stats <= overall_percentile_75 stats)%Q ∧
  (overall_median stats == np_percentile (all_marks_array all_marks) 50)%Q.
Proof.
  assert (all_marks_array all_marks ≠ []) as Hvalues.
  { unfold all_marks_array. by destruct all_marks. }
  simpl.
  rewrite !np_percentile_linear by (done || lra).
  rewrite np_median_is_percentile_50 by done.
  split; [|split; [|reflexivity]];
    apply spec_percentile_mono; (done || lra).
Qed.

Lemma quartiles_in_order_witness :
  let stats :=
    overall_statistics
      [("S1", "Asha", "Math", 95%Q); ("S1", "Asha", "Science", 85%Q);
       ("S2", "Ravi", "Math", 55%Q)] in
  (overall_percentile_25 stats <= overall_median stats)%Q ∧
  (overall_median stats <= overall_percentile_75 stats)%Q.
Proof.
  intros stats.
  destruct (quartiles_in_order
              [("S1", "Asha", "Math", 95%Q); ("S1", "Asha", "Science", 85%Q);
               ("S2", "Ravi", "Math", 55%Q)]) as (H1 & H2 & _);
    [discriminate|by split].
Defined.

(** * Further properties of the window *)







Lemma out_of_range_false marks :
  out_of_range marks = false ↔
  marks = NaN ∨ ∃ q, marks = Finite q ∧ (0 <= q)%Q ∧ (q <= 100)%Q.
Proof.
  destruct marks as [q| | |]; simpl.
  - rewrite orb_false_iff, !negb_false_iff, !Qle_bool_iff. split.
    + intros [??]. right. by exists q.
    + intros [?|(q' & Heq & ? & ?)]; [done|]. by injection Heq as ->.
  - split; [done|]. by intros [?|(q' & ? & _)].
  - split; [done|]. by intros [?|(q' & ? & _)].
  - split; [by left|done].
Qed.

(** X22: what the "Add Marks" form lets through. Whenever the callback
    ends in a window of the model, either it showed one of its two error
    messages and left the store and the form as they were, or the marks
    field held a finite number between 0 and 100, the entry was stored
    under the stripped roll number and subject with today's date, the
    success message was shown and the form cleared. The message "Failed to
    add marks!" is never shown, and marks that were all between 0 and 100
    stay so. *)
Theorem add_marks_form_checks strip float today self self'
    (Hrun : StudentPerformanceAnalyzer.add_marks strip float today self
            = Some self') :
  let roll_no := strip (marks_roll_entry self) in
  let subject := strip (subject_entry self) in
  ((db (analyzer self') = db (analyzer self) ∧
    marks_roll_entry self' = marks_roll_entry self ∧
    subject_entry self' = subject_entry self ∧
    marks_entry self' = marks_entry self ∧
    ∃ message,
      dialogs (analyzer self') =
        dialogs (analyzer self) ++ [("showerror", "Error", message)] ∧
      message ∈ ["All fields are required!";
                 "Marks must be a number between 0 and 100!"]) ∨
   (∃ q, float (strip (marks_entry self)) = Some (Finite q) ∧
         (0 <= q)%Q ∧ (q <= 100)%Q ∧ roll_no ≠ "" ∧ subject ≠ "" ∧
         db (analyzer self') =
           (add_marks today roll_no subject q None (db (analyzer self))).2 ∧
         dialogs (analyzer self') =
           dialogs (analyzer self) ++
             [("showinfo", "Success", "Marks added for " +:+ subject +:+ "!")] ∧
         marks_roll_entry self' = "" ∧ subject_entry self' = "" ∧
         marks_entry self' = "")) ∧
  (("showerror", "Error", "Failed to add marks!") ∉
     drop (length (dialogs (analyzer self))) (dialogs (analyzer self'))) ∧
  (Forall (λ m, 0 <= m_marks m ∧ m_marks m <= 100)%Q
          (tbl_marks (db (analyzer self))) →
   Forall (λ m, 0 <= m_marks m ∧ m_marks m <= 100)%Q
          (tbl_marks (db (analyzer self')))).
Proof.
  unfold StudentPerformanceAnalyzer.add_marks in Hrun. simpl.
  destruct (all _) eqn:Hall; simpl in Hrun.
  2:{ injection Hrun as <-. simpl. rewrite drop_app_length.
      split; [|split; [|done]].
      - left. do 4 (split; [done|]). eexists. split; [done|]. set_solver.
      - by intros [=]%list_elem_of_singleton. }
  destruct (float _) as [marks|] eqn:Hfloat.
  2:{ injection Hrun as <-. simpl. rewrite drop_app_length.
      split; [|split; [|done]].
      - left. do 4 (split; [done|]). eexists. split; [done|]. set_solver.
      - by intros [=]%list_elem_of_singleton. }
  destruct (out_of_range marks) eqn:Hrange.
  { injection Hrun as <-. simpl. rewrite drop_app_length.
    split; [|split; [|done]].
    - left. do 4 (split; [done|]). eexists. split; [done|]. set_solver.
    - by intros [=]%list_elem_of_singleton. }
  apply out_of_range_false in Hrange as [->|(q & -> & Hq0 & Hq100)]; [done|].
  simpl in Hrun. injection Hrun as <-. simpl. rewrite drop_app_length.
  split; [|split].
  - right. exists q. do 3 (split; [done|]).
    unfold all in Hall. simpl in Hall.
    apply andb_true_iff in Hall as [H1 [H2 _]%andb_true_iff].
    apply negb_true_iff, String.eqb_neq in H1, H2. done.
  - by intros [=]%list_elem_of_singleton.
  - intros Hold. apply Forall_app. split; [done|]. by repeat constructor.
Qed.

Lemma add_marks_form_checks_witness :
  let self :=
    mkWindow (mkApp (session "2024-03-01") "Grade Distribution" Blank [] [])
             "" "" "" "" "S1" "Art" "70" [] in
  let self' :=
    StudentPerformanceAnalyzer.clear_marks_form
      (show "showinfo" "Success" "Marks added for Art!"
         (with_db (add_marks "2024-03-02" "S1" "Art" 70 None
                     (session "2024-03-01")).2 self)) in
  Forall (λ m, 0 <= m_marks m ∧ m_marks m <= 100)%Q
         (tbl_marks (db (analyzer self'))).
Proof.
  intros self self'.
  apply (add_marks_form_checks (λ s, s) (λ _, Some (Finite 70))
           "2024-03-02" self self' eq_refl).
  repeat constructor; discriminate.
Defined.

(** X24: what the "Add Student" form rejects. Whenever the callback
    returns, the store, the form and the student list are as before and one
    error dialog was shown: "All fields are required!" when a stripped
    field is empty, otherwise "Age must be a number!" when the age is not
    an integer, otherwise the message that the roll number already exists,
    the roll number being a student's. *)
Theorem add_student_form_rejects strip int today self self'
    (Hrun : StudentPerformanceAnalyzer.add_student strip int today self
            = Returns self') :
  let roll_no := strip (roll_entry self) in
  let fields :=
    [roll_no; strip (name_entry self); strip (age_entry self);
     strip (class_entry self)] in
  db (analyzer self') = db (analyzer self) ∧
  student_tree self' = student_tree self ∧
  (roll_entry self', name_entry self', age_entry self', class_entry self') =
    (roll_entry self, name_entry self, age_entry self, class_entry self) ∧
  ∃ message,
    dialogs (analyzer self') =
      dialogs (analyzer self) ++ [("showerror", "Error", message)] ∧
    ((message = "All fields are required!" ∧ all fields = false) ∨
     (message = "Age must be a number!" ∧ all fields = true ∧
      int (strip (age_entry self)) = None) ∨
     (message = "Student with roll number " +:+ roll_no +:+ " already exists!" ∧
      all fields = true ∧ is_Some (int (strip (age_entry self))) ∧
      roll_no ∈ roll_nos (db (analyzer self)))).
Proof.
  unfold StudentPerformanceAnalyzer.add_student in Hrun. simpl.
  destruct (all _) eqn:Hall; simpl in Hrun.
  2:{ injection Hrun as <-. simpl. do 3 (split; [done|]).
      eexists. split; [done|]. by left. }
  destruct (int _) as [age|] eqn:Hage.
  2:{ injection Hrun as <-. simpl. do 3 (split; [done|]).
      eexists. split; [done|]. right. by left. }
  destruct (add_student_cases today (strip (roll_entry self))
              (strip (name_entry self)) age (strip (class_entry self))
              (db (analyzer self)))
    as [[_ Heq]|[(_ & Hdup & Heq)|(_ & _ & Heq)]];
    rewrite Heq in Hrun; [done| |done].
  injection Hrun as <-. simpl. do 3 (split; [done|]).
  eexists. split; [done|]. right. right. by repeat split.
Qed.

Lemma add_student_form_rejects_witness :
  let self :=
    mkWindow (mkApp (session "2024-03-01") "Grade Distribution" Blank [] [])
             "S1" "Asha" "twenty" "10A" "" "" "" [] in
  let self' := show "showerror" "Error" "Age must be a number!" self in
  db (analyzer self') = db (analyzer self) ∧ student_tree self' = student_tree self.
Proof.
  intros self self'.
  destruct (add_student_form_rejects (λ s, s) (λ _, None) "2024-03-02"
              self self' eq_refl) as (Hdb & Htree & _).
  by split.
Defined.



(** * The bar charts *)




(** On a name of ASCII characters only, the characters are the bytes. *)
Lemma str_slice_to_ascii n s :
  Forall (λ b, (Ascii.N_of_ascii b < 128)%N) (String.list_ascii_of_string s) →
  str_len s = String.length s ∧ str_slice_to n s = String.substring 0 n s.
Proof.
  revert n. induction s as [|b s IH]; intros n; simpl.
  - intros _. by destruct n.
  - intros [Hb Hs]%Forall_cons.
    assert (continuation_byte b = false) as ->.
    { unfold continuation_byte. apply andb_false_iff. left.
      apply N.leb_gt. exact Hb. }
    destruct (IH n Hs) as [Hlen _]. split; [by rewrite Hlen|].
    destruct n as [|n]; [done|]. f_equal. by apply IH.
Qed.



